(** * bikeshare-stations-geojson: the feed transformer and the refresh cache

    A shallow embedding of [app.js]: the server that fetches the bikeshare
    station feed, turns it into a GeoJSON FeatureCollection, keeps one cached
    copy and re-fetches it when the copy is older than thirty seconds.

    The development and production copies of [app.js] differ only in the
    port they listen on and in the names of the handler's parameters; what
    follows covers both. *)

From Stdlib Require Import ZArith List String Ascii Bool Lia PeanoNat.
Import ListNotations.

Local Open Scope string_scope.
Local Open Scope list_scope.

Set Warnings "-register-all".

(** ** Completions: a JavaScript expression returns or throws *)

Inductive js_error : Type :=
| TypeError
| SyntaxError
| NetworkFailure.

Inductive completion (A : Type) : Type :=
| Normal (a : A)
| Throw (e : js_error).

Arguments Normal {A} a.
Arguments Throw {A} e.

Definition cbind {A B : Type} (c : completion A) (k : A -> completion B)
  : completion B :=
  match c with
  | Normal a => k a
  | Throw e => Throw e
  end.

Declare Scope completion_scope.
Delimit Scope completion_scope with completion.
Notation "x <- c ;; k" := (cbind c (fun x => k))
  (at level 61, c at next level, right associativity) : completion_scope.

(** [Array.prototype.map] with a callback that may throw: elements are
    visited from left to right and the first throw ends the loop. *)
Fixpoint map_completion {A B : Type} (f : A -> completion B) (l : list A)
  : completion (list B) :=
  match l with
  | [] => Normal []
  | x :: l' =>
      (y <- f x;;
       ys <- map_completion f l';;
       Normal (y :: ys))%completion
  end.

(** The own property [key] of an object, given as its list of
    properties. *)
Fixpoint own_property {V : Type} (key : string) (props : list (string * V))
  : option V :=
  match props with
  | [] => None
  | (k, v) :: props' =>
      if String.eqb k key then Some v else own_property key props'
  end.

Fixpoint traverse {A B : Type} (f : A -> option B) (l : list A)
  : option (list B) :=
  match l with
  | [] => Some []
  | x :: l' =>
      match f x, traverse f l' with
      | Some y, Some ys => Some (y :: ys)
      | _, _ => None
      end
  end.

Section Runtime.

(** The runtime's numbers (IEEE doubles) are never computed with by the
    transformer, only carried from the feed to the response.  Their type,
    the test [Number.isFinite] and the decimal text [Number::toString]
    gives them are parameters of the development. *)
Variable number : Type.
Variable Number_isFinite : number -> bool.
Variable Number_toString : number -> string.

(** ** Values

    What [JSON.parse] builds and what [transformFeed] builds from it.  An
    object lists its own enumerable properties in the order the runtime
    enumerates them; a key occurs once. *)
Inductive value : Type :=
| VUndefined
| VNull
| VBool (b : bool)
| VNumber (n : number)
| VString (s : string)
| VArray (elems : list value)
| VObject (props : list (string * value)).

(** [v.key] for the three names the program reads ([stationBeanList],
    [longitude], [latitude]).  None of them is a property of a built-in
    prototype, so on anything but an object with that own property the
    read gives [undefined]; on [null] and [undefined] it throws. *)
Definition get (v : value) (key : string) : completion value :=
  match v with
  | VUndefined | VNull => Throw TypeError
  | VObject props =>
      Normal (match own_property key props with
              | Some x => x
              | None => VUndefined
              end)
  | VBool _ | VNumber _ | VString _ | VArray _ => Normal VUndefined
  end.

(** [v.map(f)]: an array has [Array.prototype.map]; on every other value
    the call throws a TypeError (no [map] to read on [null] and
    [undefined], and [v.map] is not a function elsewhere: a parsed feed
    holds no functions). *)
Definition call_map (v : value) (f : value -> completion value)
  : completion value :=
  match v with
  | VArray elems =>
      (ys <- map_completion f elems;; Normal (VArray ys))%completion
  | _ => Throw TypeError
  end.

(** ** The feed transformer *)

Definition transformStation (station : value) : completion value :=
  (longitude <- get station "longitude";;
   latitude <- get station "latitude";;
   let geoJsonPoint :=
     VObject
       [ ("type", VString "Feature");
         ("geometry",
           VObject [ ("type", VString "Point");
                     ("coordinates", VArray [longitude; latitude]) ]);
         ("properties", station) ] in
   Normal geoJsonPoint)%completion.

Definition transformFeed (stationFeedData : value) : completion value :=
  (stationBeanList <- get stationFeedData "stationBeanList";;
   features <- call_map stationBeanList transformStation;;
   let stationsGeoJSON :=
     VObject [ ("type", VString "FeatureCollection");
               ("features", features) ] in
   Normal stationsGeoJSON)%completion.

(** ** The transformer over a store of objects

    The same two functions with objects as the runtime has them: cells of
    a store, named by their address.  An object or array literal makes a
    new cell; [properties: station] stores the address of the station it
    was given, not a copy. *)

Inductive ref_value : Type :=
| RUndefined
| RNull
| RBool (b : bool)
| RNumber (n : number)
| RString (s : string)
| RRef (address : nat).

Inductive cell : Type :=
| ArrayCell (elems : list ref_value)
| ObjectCell (props : list (string * ref_value)).

(** The address of a cell is its position; a new cell goes to the end. *)
Definition store : Type := list cell.

Definition allocate (c : cell) (h : store) : nat * store :=
  (List.length h, h ++ [c]).

Definition get_in (h : store) (v : ref_value) (key : string)
  : completion ref_value :=
  match v with
  | RUndefined | RNull => Throw TypeError
  | RRef address =>
      match nth_error h address with
      | Some (ObjectCell props) =>
          Normal (match own_property key props with
                  | Some x => x
                  | None => RUndefined
                  end)
      | _ => Normal RUndefined
      end
  | RBool _ | RNumber _ | RString _ => Normal RUndefined
  end.

Definition transformStation_in (station : ref_value) (h : store)
  : completion ref_value * store :=
  match get_in h station "longitude" with
  | Throw e => (Throw e, h)
  | Normal longitude =>
      match get_in h station "latitude" with
      | Throw e => (Throw e, h)
      | Normal latitude =>
          let (coordinates, h1) :=
            allocate (ArrayCell [longitude; latitude]) h in
          let (geometry, h2) :=
            allocate (ObjectCell [ ("type", RString "Point");
                                   ("coordinates", RRef coordinates) ]) h1 in
          let (geoJsonPoint, h3) :=
            allocate (ObjectCell [ ("type", RString "Feature");
                                   ("geometry", RRef geometry);
                                   ("properties", station) ]) h2 in
          (Normal (RRef geoJsonPoint), h3)
      end
  end.

Fixpoint map_in (f : ref_value -> store -> completion ref_value * store)
    (l : list ref_value) (h : store) : completion (list ref_value) * store :=
  match l with
  | [] => (Normal [], h)
  | x :: l' =>
      match f x h with
      | (Throw e, h1) => (Throw e, h1)
      | (Normal y, h1) =>
          match map_in f l' h1 with
          | (Throw e, h2) => (Throw e, h2)
          | (Normal ys, h2) => (Normal (y :: ys), h2)
          end
      end
  end.

Definition transformFeed_in (stationFeedData : ref_value) (h : store)
  : completion ref_value * store :=
  match get_in h stationFeedData "stationBeanList" with
  | Throw e => (Throw e, h)
  | Normal (RRef address) =>
      match nth_error h address with
      | Some (ArrayCell stations) =>
          match map_in transformStation_in stations h with
          | (Throw e, h1) => (Throw e, h1)
          | (Normal results, h1) =>
              let (features, h2) := allocate (ArrayCell results) h1 in
              let (stationsGeoJSON, h3) :=
                allocate
                  (ObjectCell [ ("type", RString "FeatureCollection");
                                ("features", RRef features) ]) h2 in
              (Normal (RRef stationsGeoJSON), h3)
          end
      | _ => (Throw TypeError, h)
      end
  | Normal _ => (Throw TypeError, h)
  end.

(** The value a reference stands for: the tree reached from it, read to
    the depth [fuel]. *)
Fixpoint contents (fuel : nat) (h : store) (v : ref_value) {struct fuel}
  : option value :=
  match v with
  | RUndefined => Some VUndefined
  | RNull => Some VNull
  | RBool b => Some (VBool b)
  | RNumber n => Some (VNumber n)
  | RString s => Some (VString s)
  | RRef address =>
      match fuel with
      | O => None
      | S fuel' =>
          match nth_error h address with
          | Some (ArrayCell elems) =>
              option_map VArray (traverse (contents fuel' h) elems)
          | Some (ObjectCell props) =>
              option_map VObject
                (traverse
                   (fun p => option_map (pair (fst p))
                               (contents fuel' h (snd p)))
                   props)
          | None => None
          end
      end
  end.

(** [h'] is [h] with new cells: no cell of [h] is changed or dropped. *)
Definition extends (h h' : store) : Prop :=
  exists cells, h' = h ++ cells.

(** ** [JSON.stringify(value, null, space)]

    The serialisation of ECMA-262 (SerializeJSONProperty, SerializeJSONObject
    and SerializeJSONArray) for the values above: no replacer, no [toJSON]
    (the values hold no functions).  Strings are sequences of bytes; a byte
    above 127 belongs to a UTF-8 sequence and goes through unchanged. *)

Definition double_quote : string := String (ascii_of_nat 34) EmptyString.
Definition line_feed : string := String (ascii_of_nat 10) EmptyString.

Definition hex_digit (n : nat) : string :=
  String.substring n 1 "0123456789abcdef".

Definition escape_byte (c : ascii) : string :=
  let n := nat_of_ascii c in
  if Nat.eqb n 8 then "\b"
  else if Nat.eqb n 9 then "\t"
  else if Nat.eqb n 10 then "\n"
  else if Nat.eqb n 12 then "\f"
  else if Nat.eqb n 13 then "\r"
  else if Nat.eqb n 34 then "\" ++ double_quote
  else if Nat.eqb n 92 then "\\"
  else if Nat.ltb n 32 then
    "\u00" ++ hex_digit (n / 16) ++ hex_digit (n mod 16)
  else String c EmptyString.

Fixpoint escape_string (s : string) : string :=
  match s with
  | EmptyString => EmptyString
  | String c s' => escape_byte c ++ escape_string s'
  end.

Definition QuoteJSONString (s : string) : string :=
  double_quote ++ escape_string s ++ double_quote.

Fixpoint spaces (n : nat) : string :=
  match n with
  | O => EmptyString
  | S n' => String " " (spaces n')
  end.

(** The text of an object or array from the texts of its members. *)
Definition bracketed (opening closing gap stepback indent : string)
    (partial : list string) : string :=
  match partial with
  | [] => opening ++ closing
  | _ :: _ =>
      if String.eqb gap "" then
        opening ++ String.concat "," partial ++ closing
      else
        opening ++ line_feed ++ indent
          ++ String.concat ("," ++ line_feed ++ indent) partial
          ++ line_feed ++ stepback ++ closing
  end.

(** [None] is the [undefined] that SerializeJSONProperty returns for
    [undefined]: such a property is left out of an object, and such an
    element of an array is written [null]. *)
Fixpoint SerializeJSONProperty (gap indent : string) (v : value)
  : option string :=
  match v with
  | VUndefined => None
  | VNull => Some "null"
  | VBool true => Some "true"
  | VBool false => Some "false"
  | VNumber n =>
      Some (if Number_isFinite n then Number_toString n else "null")
  | VString s => Some (QuoteJSONString s)
  | VArray elems =>
      let stepback := indent in
      let indent := (indent ++ gap)%string in
      let partial :=
        (fix elements (l : list value) : list string :=
           match l with
           | [] => []
           | x :: l' =>
               match SerializeJSONProperty gap indent x with
               | Some strP => strP
               | None => "null"
               end :: elements l'
           end) elems in
      Some (bracketed "[" "]" gap stepback indent partial)
  | VObject props =>
      let stepback := indent in
      let indent := (indent ++ gap)%string in
      let partial :=
        (fix members (l : list (string * value)) : list string :=
           match l with
           | [] => []
           | (P, x) :: l' =>
               match SerializeJSONProperty gap indent x with
               | Some strP =>
                   (QuoteJSONString P ++ ":"
                      ++ (if String.eqb gap "" then "" else " ") ++ strP)%string
                     :: members l'
               | None => members l'
               end
           end) props in
      Some (bracketed "{" "}" gap stepback indent partial)
  end.

(** [space] is a number: the gap is that many spaces, ten at most. *)
Definition JSON_stringify (v : value) (space : nat) : option string :=
  SerializeJSONProperty (spaces (Nat.min space 10)) "" v.

(** ** The server *)

(** What the handler reads of a request: the request target and the
    [Origin] header ([None]: the header is absent).  [conn] tells the
    requests of a run apart. *)
Record IncomingMessage : Type := {
  conn : nat;
  url : string;
  headers_origin : option string
}.

Record ServerResponse : Type := {
  statusCode : Z;
  headers : list (string * string)
}.

(** The response object the server hands to the handler. *)
Definition new_response : ServerResponse :=
  {| statusCode := 200; headers := [] |}.

Definition set_statusCode (code : Z) (response : ServerResponse)
  : ServerResponse :=
  {| statusCode := code; headers := headers response |}.

Fixpoint replace_header (name v : string) (hs : list (string * string))
  : list (string * string) :=
  match hs with
  | [] => [(name, v)]
  | (n, v') :: hs' =>
      if String.eqb n name then (name, v) :: hs'
      else (n, v') :: replace_header name v hs'
  end.

Definition setHeader (name v : string) (response : ServerResponse)
  : ServerResponse :=
  {| statusCode := statusCode response;
     headers := replace_header name v (headers response) |}.

Fixpoint header_value (name : string) (hs : list (string * string))
  : option string :=
  match hs with
  | [] => None
  | (n, v) :: hs' => if String.eqb n name then Some v else header_value name hs'
  end.

Definition getHeader (name : string) (response : ServerResponse)
  : option string :=
  header_value name (headers response).

(** The arrow function handed to [fetchStations], as the variables it
    closes over. *)
Inductive callback : Type :=
| RespondWithStations (request : IncomingMessage) (response : ServerResponse).

(** What the process does that can be seen from outside, in order. *)
Inductive effect : Type :=
| ConsoleLog (line : string)
| HttpsGet (feedUrl : string)
| ResponseEnd (request : IncomingMessage) (response : ServerResponse)
              (body : string)
| Uncaught (e : js_error).

(** The module's two variables, the upstream requests whose [end] event
    has not fired yet, and the environment: the readings [Date.now] will
    give, how many it has given, how many requests have come in, and the
    effects so far.  Times are whole milliseconds; the sums the handler
    forms stay far below 2^53, where the runtime's arithmetic is exact,
    so they are integers here. *)
Record world : Type := {
  lastFetchTimeMS : Z;
  cachedStations : value;
  inflight : list callback;
  clock : nat -> Z;
  ticks : nat;
  accepted : nat;
  trace : list effect
}.

Definition M (A : Type) : Type := world -> A * world.

Definition ret {A : Type} (a : A) : M A := fun w => (a, w).

Definition bind {A B : Type} (m : M A) (k : A -> M B) : M B :=
  fun w => let (a, w') := m w in k a w'.

Definition exec {A : Type} (m : M A) (w : world) : world := snd (m w).

Declare Scope server_scope.
Delimit Scope server_scope with server.
Notation "x <- m ;; k" := (bind m (fun x => k))
  (at level 61, m at next level, right associativity) : server_scope.
Notation "m ;; k" := (bind m (fun _ => k))
  (at level 61, right associativity) : server_scope.

(** [Date.now()]: the next reading of the clock. *)
Definition now : M Z :=
  fun w =>
    (clock w (ticks w),
     {| lastFetchTimeMS := lastFetchTimeMS w;
        cachedStations := cachedStations w;
        inflight := inflight w;
        clock := clock w;
        ticks := S (ticks w);
        accepted := accepted w;
        trace := trace w |}).

Definition read {A : Type} (field : world -> A) : M A :=
  fun w => (field w, w).

Definition set_lastFetchTimeMS (t : Z) : M unit :=
  fun w =>
    (tt,
     {| lastFetchTimeMS := t;
        cachedStations := cachedStations w;
        inflight := inflight w;
        clock := clock w;
        ticks := ticks w;
        accepted := accepted w;
        trace := trace w |}).

Definition set_cachedStations (stations : value) : M unit :=
  fun w =>
    (tt,
     {| lastFetchTimeMS := lastFetchTimeMS w;
        cachedStations := stations;
        inflight := inflight w;
        clock := clock w;
        ticks := ticks w;
        accepted := accepted w;
        trace := trace w |}).

Definition set_inflight (pending : list callback) : M unit :=
  fun w =>
    (tt,
     {| lastFetchTimeMS := lastFetchTimeMS w;
        cachedStations := cachedStations w;
        inflight := pending;
        clock := clock w;
        ticks := ticks w;
        accepted := accepted w;
        trace := trace w |}).

Definition emit (e : effect) : M unit :=
  fun w =>
    (tt,
     {| lastFetchTimeMS := lastFetchTimeMS w;
        cachedStations := cachedStations w;
        inflight := inflight w;
        clock := clock w;
        ticks := ticks w;
        accepted := accepted w;
        trace := trace w ++ [e] |}).

(** The number of the next request; numbers are given in order of arrival. *)
Definition accept : M nat :=
  fun w =>
    (accepted w,
     {| lastFetchTimeMS := lastFetchTimeMS w;
        cachedStations := cachedStations w;
        inflight := inflight w;
        clock := clock w;
        ticks := ticks w;
        accepted := S (accepted w);
        trace := trace w |}).

Definition console_log (line : string) : M unit := emit (ConsoleLog line).

(** [response.end(body)] sends the response as it stands. *)
Definition response_end (request : IncomingMessage)
    (response : ServerResponse) (body : string) : M unit :=
  emit (ResponseEnd request response body).

(** [https.get(feedUrl, ...)] starts the upstream request and returns; the
    listeners it installs run when the upstream answers. *)
Definition https_get (feedUrl : string) (cb : callback) : M unit :=
  (emit (HttpsGet feedUrl) ;;
   pending <- read inflight ;;
   set_inflight (pending ++ [cb]))%server.

(** *** Configuration *)

Definition stationsFeedUrl : string :=
  "https://feeds.bayareabikeshare.com/stations/stations.json".
Definition millis : Z := 1000.
Definition refetchDelaySeconds : Z := 30.

(** [x || d] on a header that is a string or [undefined]: the empty string
    is falsy, as [undefined] is. *)
Definition or_default (x : option string) (d : string) : string :=
  match x with
  | Some s => if String.eqb s "" then d else s
  | None => d
  end.

(** *** [sendJsonResponse] *)

Definition sendJsonResponse (request : IncomingMessage)
    (response : ServerResponse) (json : value) : M unit :=
  let response := set_statusCode 200 response in
  let response := setHeader "Content-Type" "application/json" response in
  let response :=
    setHeader "Access-Control-Allow-Origin"
      (or_default (headers_origin request) "*") response in
  response_end request response
    (match JSON_stringify json 3 with
     | Some text => text
     | None => ""
     end).

(** *** [fetchStations] and its callback *)

Definition apply_callback (cb : callback) (stations : value) : M unit :=
  match cb with
  | RespondWithStations request response =>
      (set_cachedStations stations ;;
       cached <- read cachedStations ;;
       sendJsonResponse request response cached)%server
  end.

Definition fetchStations (cb : callback) : M unit :=
  https_get stationsFeedUrl cb.

(** The listener of the upstream response's [end] event.  [parsed] is the
    completion of [JSON.parse(body)] on the body received. *)
Definition on_end (cb : callback) (parsed : completion value)
  : M (completion unit) :=
  match (raw <- parsed ;; transformFeed raw)%completion with
  | Normal stations =>
      (apply_callback cb stations ;; ret (Normal tt))%server
  | Throw e => ret (Throw e)
  end.

(** *** The request handler *)

Definition requestListener (request : IncomingMessage)
    (response : ServerResponse) : M unit :=
  if negb (String.eqb (url request) "/") then
    let response := set_statusCode 404 response in
    response_end request response "NOT FOUND"
  else
    (nowMS <- now ;;
     lastFetch <- read lastFetchTimeMS ;;
     if (nowMS >? lastFetch + refetchDelaySeconds * millis)%Z then
       console_log "Time for a refetch" ;;
       fetchStations (RespondWithStations request response) ;;
       stamp <- now ;;
       set_lastFetchTimeMS stamp
     else
       console_log "No need to refetch; last was less than 30 seconds ago." ;;
       cached <- read cachedStations ;;
       sendJsonResponse request response cached)%server.

(** *** The event loop *)

(** How an upstream request ends: the connection fails (an [error] event,
    which nothing listens to), or the body arrives in full and
    [JSON.parse] returns or throws on it. *)
Inductive upstream : Type :=
| ConnectionError
| EndOfBody (parsed : completion value).

Inductive event : Type :=
| Incoming (target : string) (origin : option string)
| Upstream (k : nat) (u : upstream).

Definition remove_nth {A : Type} (k : nat) (l : list A) : list A :=
  firstn k l ++ skipn (S k) l.

(** An exception that leaves a listener is caught by nothing: the program
    installs no handler for it.  The turn ends with the exception, and
    with it the process. *)
Definition uncaught (e : js_error) : M (completion unit) :=
  (emit (Uncaught e) ;; ret (Throw e))%server.

(** One turn of the event loop: a request comes in, or the upstream
    request [k] ends.  The turn returns, or ends with an uncaught
    exception. *)
Definition step (e : event) : M (completion unit) :=
  match e with
  | Incoming target origin =>
      (n <- accept ;;
       requestListener
         {| conn := n; url := target; headers_origin := origin |}
         new_response ;;
       ret (Normal tt))%server
  | Upstream k u =>
      (pending <- read inflight ;;
       match nth_error pending k with
       | None => ret (Normal tt)
       | Some cb =>
           set_inflight (remove_nth k pending) ;;
           match u with
           | ConnectionError => uncaught NetworkFailure
           | EndOfBody parsed =>
               r <- on_end cb parsed ;;
               match r with
               | Normal _ => ret (Normal tt)
               | Throw e => uncaught e
               end
           end
       end)%server
  end.

(** The process takes the events in turn until one ends with an uncaught
    exception: the runtime then exits, and the events that follow are not
    handled. *)
Fixpoint run (evs : list event) (w : world) : world :=
  match evs with
  | [] => w
  | e :: evs' =>
      match step e w with
      | (Normal _, w') => run evs' w'
      | (Throw _, w') => w'
      end
  end.

(** The process is still up after the events [evs]. *)
Fixpoint alive (evs : list event) (w : world) : bool :=
  match evs with
  | [] => true
  | e :: evs' =>
      match step e w with
      | (Normal _, w') => alive evs' w'
      | (Throw _, _) => false
      end
  end.

Definition initial (readings : nat -> Z) : world :=
  {| lastFetchTimeMS := 0;
     cachedStations := VNull;
     inflight := [];
     clock := readings;
     ticks := 0;
     accepted := 0;
     trace := [] |}.

(** *** Shapes of the transformer's input and output *)

(** [null] and [undefined]: the values a property cannot be read from. *)
Definition nullish (v : value) : bool :=
  match v with
  | VUndefined | VNull => true
  | _ => false
  end.

Definition Feature (longitude latitude properties : value) : value :=
  VObject
    [ ("type", VString "Feature");
      ("geometry",
        VObject [ ("type", VString "Point");
                  ("coordinates", VArray [longitude; latitude]) ]);
      ("properties", properties) ].

Definition FeatureCollection (features : list value) : value :=
  VObject [ ("type", VString "FeatureCollection");
            ("features", VArray features) ].

(** [v.key] where the read cannot throw. *)
Definition field (v : value) (key : string) : value :=
  match get v key with
  | Normal x => x
  | Throw _ => VUndefined
  end.

(** The Feature of a station a property can be read from. *)
Definition feature_of (station : value) : value :=
  Feature (field station "longitude") (field station "latitude") station.

(** The feeds [transformFeed] returns on: an object whose own
    [stationBeanList] is an array without [null] elements. *)
Definition feed_shape (raw : value) : bool :=
  match raw with
  | VObject props =>
      match own_property "stationBeanList" props with
      | Some (VArray stations) => forallb (fun s => negb (nullish s)) stations
      | _ => false
      end
  | _ => false
  end.

(** *** Reading a trace *)

(** The effects a computation adds to the trace of [w]. *)
Definition emitted {A : Type} (m : M A) (w : world) : list effect :=
  skipn (List.length (trace w)) (trace (snd (m w))).

Definition is_fetch (e : effect) : bool :=
  match e with
  | HttpsGet _ => true
  | _ => false
  end.

(** The upstream requests a trace starts. *)
Definition fetches (tr : list effect) : nat :=
  List.length (filter is_fetch tr).

Definition starts_fetch {A : Type} (m : M A) (w : world) : bool :=
  existsb is_fetch (emitted m w).

(** The staleness test of the handler, on the reading it takes. *)
Definition stale (w : world) : bool :=
  (clock w (ticks w) >? lastFetchTimeMS w + refetchDelaySeconds * millis)%Z.

(** The response [sendJsonResponse] builds for a request. *)
Definition json_response (request : IncomingMessage)
    (response : ServerResponse) : ServerResponse :=
  setHeader "Access-Control-Allow-Origin"
    (or_default (headers_origin request) "*")
    (setHeader "Content-Type" "application/json"
       (set_statusCode 200 response)).

Definition json_body (json : value) : string :=
  match JSON_stringify json 3 with
  | Some text => text
  | None => ""
  end.

Definition no_need_line : string :=
  "No need to refetch; last was less than 30 seconds ago.".

(** What the [end] listener computes before it calls back, or the error
    the upstream request ends with. *)
Definition outcome (u : upstream) : completion value :=
  match u with
  | ConnectionError => Throw NetworkFailure
  | EndOfBody parsed => (raw <- parsed ;; transformFeed raw)%completion
  end.

Definition callback_request (cb : callback) : IncomingMessage :=
  match cb with
  | RespondWithStations request _ => request
  end.

Definition callback_response (cb : callback) : ServerResponse :=
  match cb with
  | RespondWithStations _ response => response
  end.

(** The world after the upstream request [k] has ended. *)
Definition after_upstream (k : nat) (u : upstream) (w : world) : world :=
  match nth_error (inflight w) k with
  | None => w
  | Some cb =>
      match outcome u with
      | Normal stations =>
          {| lastFetchTimeMS := lastFetchTimeMS w;
             cachedStations := stations;
             inflight := remove_nth k (inflight w);
             clock := clock w;
             ticks := ticks w;
             accepted := accepted w;
             trace :=
               trace w ++
                 [ResponseEnd (callback_request cb)
                    (json_response (callback_request cb)
                       (callback_response cb))
                    (json_body stations)] |}
      | Throw e =>
          {| lastFetchTimeMS := lastFetchTimeMS w;
             cachedStations := cachedStations w;
             inflight := remove_nth k (inflight w);
             clock := clock w;
             ticks := ticks w;
             accepted := accepted w;
             trace := trace w ++ [Uncaught e] |}
      end
  end.

(** How the turn in which the upstream request [k] ends returns. *)
Definition upstream_turn (k : nat) (u : upstream) (w : world)
  : completion unit :=
  match nth_error (inflight w) k with
  | None => Normal tt
  | Some _ =>
      match outcome u with
      | Normal _ => Normal tt
      | Throw e => Throw e
      end
  end.

(** *** The worlds a step leads to *)

Definition not_found_world (target : string) (origin : option string)
    (w : world) : world :=
  {| lastFetchTimeMS := lastFetchTimeMS w;
     cachedStations := cachedStations w;
     inflight := inflight w;
     clock := clock w;
     ticks := ticks w;
     accepted := S (accepted w);
     trace :=
       trace w ++
         [ResponseEnd
            {| conn := accepted w; url := target; headers_origin := origin |}
            {| statusCode := 404; headers := [] |} "NOT FOUND"] |}.

Definition refetch_world (origin : option string) (w : world) : world :=
  {| lastFetchTimeMS := clock w (S (ticks w));
     cachedStations := cachedStations w;
     inflight :=
       inflight w ++
         [RespondWithStations
            {| conn := accepted w; url := "/"; headers_origin := origin |}
            new_response];
     clock := clock w;
     ticks := S (S (ticks w));
     accepted := S (accepted w);
     trace := (trace w ++ [ConsoleLog "Time for a refetch"])
                ++ [HttpsGet stationsFeedUrl] |}.

Definition cached_world (origin : option string) (w : world) : world :=
  let request :=
    {| conn := accepted w; url := "/"; headers_origin := origin |} in
  {| lastFetchTimeMS := lastFetchTimeMS w;
     cachedStations := cachedStations w;
     inflight := inflight w;
     clock := clock w;
     ticks := S (ticks w);
     accepted := S (accepted w);
     trace := (trace w ++ [ConsoleLog no_need_line])
                ++ [ResponseEnd request (json_response request new_response)
                      (json_body (cachedStations w))] |}.

(** One turn of the event loop, case by case. *)
Inductive transition : event -> world -> world -> Prop :=
| turn_not_found target origin w :
    target <> "/" ->
    transition (Incoming target origin) w (not_found_world target origin w)
| turn_refetch origin w :
    stale w = true ->
    transition (Incoming "/" origin) w (refetch_world origin w)
| turn_cached origin w :
    stale w = false ->
    transition (Incoming "/" origin) w (cached_world origin w)
| turn_upstream k u w :
    transition (Upstream k u) w (after_upstream k u w).

(** *** Requests and their answers *)

Definition answered (n : nat) (tr : list effect) : Prop :=
  exists request response body,
    In (ResponseEnd request response body) tr /\ conn request = n.

(** The requests that wait for an upstream request to end. *)
Definition awaiting (w : world) : list nat :=
  map (fun cb => conn (callback_request cb)) (inflight w).

Record consistent (w : world) : Prop := {
  awaiting_accepted : forall n, In n (awaiting w) -> n < accepted w;
  awaiting_once : NoDup (awaiting w);
  awaiting_unanswered : forall n, In n (awaiting w) -> ~ answered n (trace w);
  answered_accepted : forall n, answered n (trace w) -> n < accepted w
}.

(** *** What is served *)

(** The values the cache holds: [null], or what [transformFeed] returned
    on some feed. *)
Definition cache_value (json : value) : Prop :=
  json = VNull
  \/ exists raw features,
       transformFeed raw = Normal json /\ json = FeatureCollection features.

Definition served (request : IncomingMessage) (response : ServerResponse)
    (body : string) : Prop :=
  (url request <> "/"
   /\ statusCode response = 404%Z /\ body = "NOT FOUND")
  \/ (exists base json,
        response = json_response request base
        /\ cache_value json /\ body = json_body json).

Definition serves_well (w : world) : Prop :=
  cache_value (cachedStations w)
  /\ forall request response body,
       In (ResponseEnd request response body) (trace w) ->
       served request response body.

(** *** Bursts *)

(** Requests for [/] that come in one after the other, no upstream
    request ending in between. *)
Definition burst (origins : list (option string)) : list event :=
  map (Incoming "/") origins.

(** What the fresh branch logs and answers to the requests of a burst,
    the first of which is numbered [n], while the cache holds [cached]. *)
Fixpoint fresh_responses (n : nat) (cached : value)
    (origins : list (option string)) : list effect :=
  match origins with
  | [] => []
  | origin :: origins' =>
      let request :=
        {| conn := n; url := "/"; headers_origin := origin |} in
      ConsoleLog no_need_line
        :: ResponseEnd request (json_response request new_response)
             (json_body cached)
        :: fresh_responses (S n) cached origins'
  end.

(** *** Counting over a trace *)

(** The requests a trace answers, by their numbers, in order. *)
Fixpoint responders (tr : list effect) : list nat :=
  match tr with
  | [] => []
  | ResponseEnd request _ _ :: tr' => conn request :: responders tr'
  | _ :: tr' => responders tr'
  end.

Definition is_uncaught (e : effect) : bool :=
  match e with
  | Uncaught _ => true
  | _ => false
  end.

(** The exceptions a trace leaves uncaught. *)
Definition failures (tr : list effect) : nat :=
  List.length (filter is_uncaught tr).

(** *** Reading a FeatureCollection back *)

(** [collection.features.map(feature => feature.properties)]. *)
Definition properties_of_features (collection : value)
  : completion (list value) :=
  (features <- get collection "features" ;;
   match features with
   | VArray elems => map_completion (fun feature => get feature "properties")
                       elems
   | _ => Throw TypeError
   end)%completion.

(** [null] and [undefined] among the values of a store. *)
Definition nullish_ref (v : ref_value) : bool :=
  match v with
  | RUndefined | RNull => true
  | _ => false
  end.

(** The Feature at [r] in the store [h] has the value [station] itself
    as its [properties]. *)
Definition shares (h : store) (station r : ref_value) : Prop :=
  exists a fields,
    r = RRef a
    /\ nth_error h a = Some (ObjectCell fields)
    /\ own_property "properties" fields = Some station.

(** ** The handler, branch by branch *)

Lemma skipn_length_app {A : Type} (l l' : list A) :
  skipn (List.length l) (l ++ l') = l'.
Proof.
  induction l as [|x l IH]; simpl; auto.
Qed.

Lemma requestListener_other_url (request : IncomingMessage)
    (response : ServerResponse) (w : world) :
  url request <> "/" ->
  requestListener request response w =
    emit (ResponseEnd request (set_statusCode 404 response) "NOT FOUND") w.
Proof.
  intros Hurl. unfold requestListener.
  destruct (String.eqb_spec (url request) "/") as [E|E]; [contradiction|].
  reflexivity.
Qed.

(** Runs the handler of a request for [/] up to its staleness test. *)
Ltac enter_handler Hurl :=
  unfold exec, requestListener;
  rewrite Hurl; change (negb ("/" =? "/")%string) with false; cbv iota;
  unfold bind at 1; unfold now at 1; cbv beta iota;
  unfold bind at 1; unfold read at 1; cbv beta iota;
  cbn [lastFetchTimeMS clock ticks].

Lemma requestListener_stale (request : IncomingMessage)
    (response : ServerResponse) (w : world) :
  url request = "/" ->
  stale w = true ->
  exec (requestListener request response) w =
    {| lastFetchTimeMS := clock w (S (ticks w));
       cachedStations := cachedStations w;
       inflight := inflight w ++ [RespondWithStations request response];
       clock := clock w;
       ticks := S (S (ticks w));
       accepted := accepted w;
       trace := (trace w ++ [ConsoleLog "Time for a refetch"])
                  ++ [HttpsGet stationsFeedUrl] |}.
Proof.
  intros Hurl Hstale. unfold stale in Hstale.
  enter_handler Hurl. rewrite Hstale. reflexivity.
Qed.

Lemma requestListener_fresh (request : IncomingMessage)
    (response : ServerResponse) (w : world) :
  url request = "/" ->
  stale w = false ->
  exec (requestListener request response) w =
    {| lastFetchTimeMS := lastFetchTimeMS w;
       cachedStations := cachedStations w;
       inflight := inflight w;
       clock := clock w;
       ticks := S (ticks w);
       accepted := accepted w;
       trace := (trace w ++ [ConsoleLog no_need_line])
                  ++ [ResponseEnd request (json_response request response)
                        (json_body (cachedStations w))] |}.
Proof.
  intros Hurl Hfresh. unfold stale in Hfresh.
  enter_handler Hurl. rewrite Hfresh. reflexivity.
Qed.

Lemma step_incoming_turn (target : string) (origin : option string)
    (w : world) :
  step (Incoming target origin) w =
    (Normal tt,
     exec (requestListener
             {| conn := accepted w; url := target; headers_origin := origin |}
             new_response)
          (snd (accept w))).
Proof.
  unfold exec, step, bind, accept. cbv beta iota. cbn [snd].
  destruct (requestListener _ _ _) as [[] w']. reflexivity.
Qed.

Lemma step_incoming (target : string) (origin : option string) (w : world) :
  exec (step (Incoming target origin)) w =
    exec (requestListener
            {| conn := accepted w; url := target; headers_origin := origin |}
            new_response)
         (snd (accept w)).
Proof.
  unfold exec at 1. rewrite step_incoming_turn. reflexivity.
Qed.

Lemma run_incoming (target : string) (origin : option string)
    (evs : list event) (w : world) :
  run (Incoming target origin :: evs) w =
    run evs (exec (step (Incoming target origin)) w).
Proof.
  cbn [run]. unfold exec. rewrite step_incoming_turn. reflexivity.
Qed.

Lemma emitted_exec {A : Type} (m : M A) (w : world) (new : list effect) :
  trace (exec m w) = trace w ++ new -> emitted m w = new.
Proof.
  unfold emitted, exec. intros ->. apply skipn_length_app.
Qed.

Lemma step_incoming_stale (origin : option string) (w : world) :
  stale w = true ->
  exec (step (Incoming "/" origin)) w = refetch_world origin w.
Proof.
  intros Hstale. rewrite step_incoming.
  rewrite requestListener_stale; [reflexivity | reflexivity | exact Hstale].
Qed.

Lemma step_incoming_fresh (origin : option string) (w : world) :
  stale w = false ->
  exec (step (Incoming "/" origin)) w = cached_world origin w.
Proof.
  intros Hfresh. rewrite step_incoming.
  rewrite requestListener_fresh; [reflexivity | reflexivity | exact Hfresh].
Qed.

Lemma step_incoming_other (target : string) (origin : option string)
    (w : world) :
  target <> "/" ->
  exec (step (Incoming target origin)) w = not_found_world target origin w.
Proof.
  intros Hurl. rewrite step_incoming. unfold exec.
  rewrite requestListener_other_url by exact Hurl. reflexivity.
Qed.

(** ** Routing *)

(** C7: a request whose target is not exactly [/] is answered with status
    404 and the body [NOT FOUND]; the handler starts no upstream fetch and
    leaves [lastFetchTimeMS], [cachedStations], the requests in flight and
    the clock as they were. *)
Theorem unknown_route_is_not_found (target : string) (origin : option string)
    (w : world) :
  target <> "/" ->
  let request :=
    {| conn := accepted w; url := target; headers_origin := origin |} in
  let w' := exec (step (Incoming target origin)) w in
  emitted (step (Incoming target origin)) w =
    [ResponseEnd request {| statusCode := 404; headers := [] |} "NOT FOUND"]
  /\ starts_fetch (step (Incoming target origin)) w = false
  /\ fetches (trace w') = fetches (trace w)
  /\ lastFetchTimeMS w' = lastFetchTimeMS w
  /\ cachedStations w' = cachedStations w
  /\ inflight w' = inflight w
  /\ ticks w' = ticks w.
Proof.
  intros Hurl request w'.
  assert (Hw' : w' = exec (step (Incoming target origin)) w) by reflexivity.
  rewrite step_incoming_other in Hw' by exact Hurl.
  assert (Hem : emitted (step (Incoming target origin)) w =
                [ResponseEnd request {| statusCode := 404; headers := [] |}
                   "NOT FOUND"]).
  { apply emitted_exec. fold w'. rewrite Hw'. reflexivity. }
  split; [exact Hem|].
  split; [unfold starts_fetch; rewrite Hem; reflexivity|].
  rewrite Hw'. unfold not_found_world.
  cbn [trace lastFetchTimeMS cachedStations inflight ticks].
  repeat split.
  unfold fetches. rewrite filter_app. simpl. rewrite app_nil_r. reflexivity.
Qed.

(** ** The staleness test *)

Lemma starts_fetch_iff_stale (origin : option string) (w : world) :
  starts_fetch (step (Incoming "/" origin)) w = stale w.
Proof.
  unfold starts_fetch.
  destruct (stale w) eqn:Hs.
  - erewrite emitted_exec.
    2:{ rewrite step_incoming_stale by exact Hs.
        unfold refetch_world. cbn [trace].
        rewrite <- app_assoc. reflexivity. }
    reflexivity.
  - erewrite emitted_exec.
    2:{ rewrite step_incoming_fresh by exact Hs.
        unfold cached_world. cbn [trace].
        rewrite <- app_assoc. reflexivity. }
    reflexivity.
Qed.

(** C2: the comparison is strict.  A request for [/] whose reading of the
    clock is [nowMS] starts the refresh exactly when
    [nowMS > lastFetchTimeMS + 30000]: at [lastFetchTimeMS + 30000] it does
    not, at [lastFetchTimeMS + 30001] it does, and from the initial
    [lastFetchTimeMS = 0] it does for every [nowMS > 30000]. *)
Theorem staleness_is_strict (origin : option string) (w : world) :
  let nowMS := clock w (ticks w) in
  let refresh := starts_fetch (step (Incoming "/" origin)) w in
  (refresh = true <-> (nowMS > lastFetchTimeMS w + 30000)%Z)
  /\ (nowMS = lastFetchTimeMS w + 30000 -> refresh = false)%Z
  /\ (nowMS = lastFetchTimeMS w + 30001 -> refresh = true)%Z
  /\ (lastFetchTimeMS w = 0 -> nowMS > 30000 -> refresh = true)%Z.
Proof.
  intros nowMS refresh.
  assert (Hiff : refresh = true <-> (nowMS > lastFetchTimeMS w + 30000)%Z).
  { unfold refresh. rewrite starts_fetch_iff_stale. unfold stale.
    fold nowMS. change (refetchDelaySeconds * millis)%Z with 30000%Z.
    rewrite Z.gtb_gt. reflexivity. }
  split; [exact Hiff|].
  split; [|split].
  - intros E. destruct refresh eqn:R; [|reflexivity].
    assert (nowMS > lastFetchTimeMS w + 30000)%Z by (apply Hiff; reflexivity).
    lia.
  - intros E. apply Hiff. lia.
  - intros E1 E2. apply Hiff. lia.
Qed.

(** ** The end of an upstream request *)

Lemma step_upstream_turn (k : nat) (u : upstream) (w : world) :
  step (Upstream k u) w = (upstream_turn k u w, after_upstream k u w).
Proof.
  unfold upstream_turn, after_upstream, step.
  unfold bind at 1. unfold read at 1. cbv beta iota.
  destruct (nth_error (inflight w) k) as [cb|] eqn:Hk.
  - destruct u as [|parsed]; cbn [outcome].
    + reflexivity.
    + unfold bind at 1. unfold set_inflight at 1. cbv beta iota.
      unfold bind at 1. unfold on_end.
      destruct (raw <- parsed ;; transformFeed raw)%completion
        as [stations|e] eqn:Hout.
      * destruct cb as [request response]. reflexivity.
      * reflexivity.
  - destruct w; reflexivity.
Qed.

Lemma step_upstream (k : nat) (u : upstream) (w : world) :
  exec (step (Upstream k u)) w = after_upstream k u w.
Proof.
  unfold exec. rewrite step_upstream_turn. reflexivity.
Qed.

(** ** The timestamp *)

Lemma upstream_keeps_stamp (k : nat) (u : upstream) (w : world) :
  lastFetchTimeMS (exec (step (Upstream k u)) w) = lastFetchTimeMS w.
Proof.
  rewrite step_upstream. unfold after_upstream.
  destruct (nth_error (inflight w) k); [|reflexivity].
  destruct (outcome u); reflexivity.
Qed.

(** C1, as the code has it: in the stale branch the handler itself, before
    it returns and so before the fetch it has just started can complete,
    sets [lastFetchTimeMS] to a second reading of the clock, taken after
    the fetch is started.  The request is left unanswered with its fetch
    in flight and the cache untouched; the stamp equals the reading that
    was compared against the threshold when the two readings agree; and
    the completion of a fetch never writes the stamp. *)
Theorem stamp_is_set_at_fetch_start (origin : option string) (w : world) :
  stale w = true ->
  let request :=
    {| conn := accepted w; url := "/"; headers_origin := origin |} in
  let w' := exec (step (Incoming "/" origin)) w in
  lastFetchTimeMS w' = clock w (S (ticks w))
  /\ inflight w' = inflight w ++ [RespondWithStations request new_response]
  /\ emitted (step (Incoming "/" origin)) w =
       [ConsoleLog "Time for a refetch"; HttpsGet stationsFeedUrl]
  /\ cachedStations w' = cachedStations w
  /\ (clock w (S (ticks w)) = clock w (ticks w) ->
      lastFetchTimeMS w' = clock w (ticks w))
  /\ (forall k u v,
        lastFetchTimeMS (exec (step (Upstream k u)) v) = lastFetchTimeMS v).
Proof.
  intros Hstale request w'.
  assert (Hw' : w' = exec (step (Incoming "/" origin)) w) by reflexivity.
  rewrite step_incoming_stale in Hw' by exact Hstale.
  assert (Hstamp : lastFetchTimeMS w' = clock w (S (ticks w)))
    by (rewrite Hw'; reflexivity).
  split; [exact Hstamp|].
  split; [rewrite Hw'; reflexivity|].
  split.
  { apply emitted_exec. fold w'. rewrite Hw'.
    unfold refetch_world. cbn [trace].
    rewrite <- app_assoc. reflexivity. }
  split; [rewrite Hw'; reflexivity|].
  split; [intros E; rewrite Hstamp; exact E|].
  intros k u v. apply upstream_keeps_stamp.
Qed.

(** ** The response *)

Lemma header_value_replace_same (name v : string)
    (hs : list (string * string)) :
  header_value name (replace_header name v hs) = Some v.
Proof.
  induction hs as [|[n v'] hs IH]; simpl.
  - rewrite String.eqb_refl. reflexivity.
  - destruct (String.eqb n name) eqn:E; simpl.
    + rewrite String.eqb_refl. reflexivity.
    + rewrite E. exact IH.
Qed.

Lemma header_value_replace_other (name other v : string)
    (hs : list (string * string)) :
  other <> name ->
  header_value name (replace_header other v hs) = header_value name hs.
Proof.
  intros Hne.
  assert (Hb : String.eqb other name = false)
    by (apply String.eqb_neq; exact Hne).
  induction hs as [|[n v'] hs IH]; simpl.
  - rewrite Hb. reflexivity.
  - destruct (String.eqb n other) eqn:E; simpl.
    + apply String.eqb_eq in E. subst n. rewrite Hb. reflexivity.
    + destruct (String.eqb n name); [reflexivity | exact IH].
Qed.

Lemma json_response_shape (request : IncomingMessage)
    (response : ServerResponse) :
  statusCode (json_response request response) = 200%Z
  /\ getHeader "Content-Type" (json_response request response)
       = Some "application/json"
  /\ getHeader "Access-Control-Allow-Origin" (json_response request response)
       = Some (or_default (headers_origin request) "*").
Proof.
  unfold json_response, getHeader, setHeader, set_statusCode.
  cbn [statusCode headers].
  split; [reflexivity|]. split.
  - rewrite header_value_replace_other by discriminate.
    apply header_value_replace_same.
  - apply header_value_replace_same.
Qed.

(** C10: a request for [/] that takes the fresh branch while
    [cachedStations] is still [null] is answered with status 200, the
    header [Content-Type: application/json] and the body [null], the JSON
    text of the empty cache. *)
Theorem empty_cache_is_served_as_null (origin : option string) (w : world) :
  cachedStations w = VNull ->
  stale w = false ->
  let request :=
    {| conn := accepted w; url := "/"; headers_origin := origin |} in
  exists response,
    emitted (step (Incoming "/" origin)) w =
      [ConsoleLog no_need_line; ResponseEnd request response "null"]
    /\ statusCode response = 200%Z
    /\ getHeader "Content-Type" response = Some "application/json"
    /\ starts_fetch (step (Incoming "/" origin)) w = false.
Proof.
  intros Hnull Hfresh request.
  exists (json_response request new_response).
  assert (Hem : emitted (step (Incoming "/" origin)) w =
            [ConsoleLog no_need_line;
             ResponseEnd request (json_response request new_response) "null"]).
  { apply emitted_exec. rewrite step_incoming_fresh by exact Hfresh.
    unfold cached_world. cbn [trace]. rewrite Hnull. rewrite <- app_assoc.
    reflexivity. }
  split; [exact Hem|].
  destruct (json_response_shape request new_response) as (H1 & H2 & _).
  split; [exact H1|]. split; [exact H2|].
  rewrite starts_fetch_iff_stale. exact Hfresh.
Qed.

(** ** The transformer *)

Lemma get_not_nullish (v : value) (key : string) :
  nullish v = false -> get v key = Normal (field v key).
Proof.
  unfold field. destruct v; simpl; intros H; try discriminate; reflexivity.
Qed.

Lemma get_nullish (v : value) (key : string) :
  nullish v = true -> get v key = Throw TypeError.
Proof.
  destruct v; simpl; intros H; try discriminate; reflexivity.
Qed.

Lemma transformStation_not_nullish (station : value) :
  nullish station = false ->
  transformStation station =
    Normal (Feature (field station "longitude") (field station "latitude")
              station).
Proof.
  intros H. unfold transformStation.
  rewrite !get_not_nullish by exact H. reflexivity.
Qed.

Lemma transformStation_nullish (station : value) :
  nullish station = true -> transformStation station = Throw TypeError.
Proof.
  intros H. unfold transformStation.
  rewrite get_nullish by exact H. reflexivity.
Qed.

Lemma map_transformStation (stations : list value) :
  map_completion transformStation stations =
    if forallb (fun s => negb (nullish s)) stations
    then Normal (map feature_of stations)
    else Throw TypeError.
Proof.
  induction stations as [|st stations IH]; [reflexivity|].
  cbn [map_completion forallb map].
  destruct (nullish st) eqn:Hn.
  - rewrite transformStation_nullish by exact Hn. reflexivity.
  - rewrite transformStation_not_nullish by exact Hn.
    cbn [cbind negb andb]. rewrite IH.
    destruct (forallb (fun s => negb (nullish s)) stations); reflexivity.
Qed.

Lemma transformFeed_shape (raw : value) :
  transformFeed raw =
    match raw with
    | VObject props =>
        match own_property "stationBeanList" props with
        | Some (VArray stations) =>
            if forallb (fun s => negb (nullish s)) stations
            then Normal (FeatureCollection (map feature_of stations))
            else Throw TypeError
        | _ => Throw TypeError
        end
    | _ => Throw TypeError
    end.
Proof.
  unfold transformFeed.
  destruct raw as [| | b | n | s | elems | props]; try reflexivity.
  cbn [get cbind].
  destruct (own_property "stationBeanList" props) as [list|];
    [|reflexivity].
  destruct list as [| | b | n | s | stations | props']; try reflexivity.
  cbn [call_map]. rewrite map_transformStation.
  destruct (forallb (fun s => negb (nullish s)) stations); reflexivity.
Qed.

(** C4: for a feed whose [stationBeanList] is an array of stations (values
    a property can be read from), [transformFeed] returns a
    FeatureCollection with one Feature per station, in the order of the
    input: the i-th Feature has the coordinates
    [[station_i.longitude, station_i.latitude]] and has [station_i]
    itself, unchanged, as its properties. *)
Theorem transformFeed_maps_stations_in_order
    (props : list (string * value)) (stations : list value) :
  own_property "stationBeanList" props = Some (VArray stations) ->
  Forall (fun station => nullish station = false) stations ->
  exists features,
    transformFeed (VObject props) = Normal (FeatureCollection features)
    /\ List.length features = List.length stations
    /\ forall i station,
         nth_error stations i = Some station ->
         exists longitude latitude,
           get station "longitude" = Normal longitude
           /\ get station "latitude" = Normal latitude
           /\ nth_error features i
                = Some (Feature longitude latitude station).
Proof.
  intros Hlist Hstations.
  exists (map feature_of stations).
  split.
  - rewrite transformFeed_shape, Hlist.
    assert (Hall : forallb (fun s => negb (nullish s)) stations = true).
    { apply forallb_forall. intros s Hin.
      rewrite Forall_forall in Hstations.
      rewrite (Hstations s Hin). reflexivity. }
    rewrite Hall. reflexivity.
  - split; [apply length_map|].
    intros i station Hi.
    assert (Hn : nullish station = false).
    { rewrite Forall_forall in Hstations. apply Hstations.
      eapply nth_error_In; exact Hi. }
    exists (field station "longitude"), (field station "latitude").
    split; [apply get_not_nullish; exact Hn|].
    split; [apply get_not_nullish; exact Hn|].
    rewrite nth_error_map, Hi. reflexivity.
Qed.

(** C5, as the code has it: [transformFeed] throws (a TypeError) exactly
    on the feeds that are not an object whose own [stationBeanList] is an
    array free of [null] elements, and returns a FeatureCollection on all
    others.  It never looks at what [longitude] and [latitude] hold: on a
    list of station objects it returns, whatever their fields are. *)
Theorem transformFeed_fails_on_shape_only (raw : value) :
  match transformFeed raw with
  | Throw e => e = TypeError /\ feed_shape raw = false
  | Normal collection =>
      feed_shape raw = true
      /\ exists features, collection = FeatureCollection features
  end
  /\ forall props stations,
       raw = VObject props ->
       own_property "stationBeanList" props = Some (VArray stations) ->
       (forall station, In station stations ->
          exists fields, station = VObject fields) ->
       exists features,
         transformFeed raw = Normal (FeatureCollection features).
Proof.
  split.
  - rewrite transformFeed_shape. unfold feed_shape.
    destruct raw as [| | b | n | s | elems | props]; try (split; reflexivity).
    destruct (own_property "stationBeanList" props) as [list|];
      [|split; reflexivity].
    destruct list as [| | b | n | s | stations | props'];
      try (split; reflexivity).
    destruct (forallb (fun s => negb (nullish s)) stations).
    + split; [reflexivity|]. eexists; reflexivity.
    + split; reflexivity.
  - intros props stations -> Hlist Hobjects.
    exists (map feature_of stations).
    rewrite transformFeed_shape, Hlist.
    assert (Hall : forallb (fun s => negb (nullish s)) stations = true).
    { apply forallb_forall. intros s Hin.
      destruct (Hobjects s Hin) as [fields ->]. reflexivity. }
    rewrite Hall. reflexivity.
Qed.

(** ** Turns of the event loop *)

Lemma step_transition (e : event) (w : world) :
  transition e w (exec (step e) w).
Proof.
  destruct e as [target origin | k u].
  - destruct (String.eqb_spec target "/") as [->|Hne].
    + destruct (stale w) eqn:Hs.
      * rewrite step_incoming_stale by exact Hs.
        apply (turn_refetch origin w Hs).
      * rewrite step_incoming_fresh by exact Hs.
        apply (turn_cached origin w Hs).
    + rewrite step_incoming_other by exact Hne.
      apply turn_not_found; exact Hne.
  - rewrite step_upstream. apply turn_upstream.
Qed.

Lemma run_invariant (P : world -> Prop) :
  (forall e w w', transition e w w' -> P w -> P w') ->
  forall evs w, P w -> P (run evs w).
Proof.
  intros Hstep evs. induction evs as [|e evs IH]; intros w Hw; [exact Hw|].
  assert (Hw' : P (exec (step e) w))
    by (eapply Hstep; [apply step_transition | exact Hw]).
  cbn [run]. unfold exec in Hw'.
  destruct (step e w) as [[[]|err] w']; cbn [snd] in Hw';
    [apply IH; exact Hw' | exact Hw'].
Qed.

(** *** Lists with one element taken out *)

Lemma remove_nth_middle {A : Type} (l1 l2 : list A) (x : A) :
  remove_nth (List.length l1) (l1 ++ x :: l2) = l1 ++ l2.
Proof.
  unfold remove_nth.
  rewrite firstn_app, firstn_all, Nat.sub_diag, app_nil_r.
  f_equal.
  induction l1 as [|y l1 IH]; [reflexivity|]. simpl. exact IH.
Qed.

Lemma remove_nth_map {A B : Type} (f : A -> B) (k : nat) (l : list A) :
  map f (remove_nth k l) = remove_nth k (map f l).
Proof.
  unfold remove_nth. rewrite map_app, firstn_map, skipn_map. reflexivity.
Qed.

Lemma remove_nth_In {A : Type} (k : nat) (l : list A) (x : A) :
  In x (remove_nth k l) -> In x l.
Proof.
  revert l. induction k as [|k IH]; intros [|a l] H;
    unfold remove_nth in *; simpl in *; auto.
  destruct H as [H|H]; [left; exact H | right; apply IH; exact H].
Qed.

Lemma remove_nth_NoDup {A : Type} (k : nat) (l : list A) (x : A) :
  NoDup l -> nth_error l k = Some x ->
  NoDup (remove_nth k l) /\ ~ In x (remove_nth k l).
Proof.
  intros Hnd Hk.
  destruct (nth_error_split l k Hk) as (l1 & l2 & -> & <-).
  rewrite remove_nth_middle. apply NoDup_remove. exact Hnd.
Qed.

(** *** Who has been answered *)

Lemma answered_app (n : nat) (tr tr' : list effect) :
  answered n (tr ++ tr') <-> answered n tr \/ answered n tr'.
Proof.
  unfold answered. split.
  - intros (rq & rs & b & Hin & Hn). apply in_app_or in Hin.
    destruct Hin as [Hin|Hin]; [left|right]; exists rq, rs, b; auto.
  - intros [(rq & rs & b & Hin & Hn)|(rq & rs & b & Hin & Hn)];
      exists rq, rs, b; split; auto; apply in_or_app; auto.
Qed.

Lemma answered_one (n : nat) (e : effect) :
  answered n [e] <->
  match e with
  | ResponseEnd request _ _ => conn request = n
  | _ => False
  end.
Proof.
  unfold answered. split.
  - intros (rq & rs & b & [Heq|[]] & Hn). subst e. exact Hn.
  - destruct e as [line | feed | rq rs b | err]; try contradiction.
    intros Hn. exists rq, rs, b. split; [left; reflexivity | exact Hn].
Qed.

Lemma awaiting_nth (w : world) (k : nat) (cb : callback) :
  nth_error (inflight w) k = Some cb ->
  nth_error (awaiting w) k = Some (conn (callback_request cb)).
Proof.
  intros Hk. unfold awaiting. rewrite nth_error_map, Hk. reflexivity.
Qed.

Lemma consistent_initial (readings : nat -> Z) : consistent (initial readings).
Proof.
  split; simpl.
  - intros n [].
  - constructor.
  - intros n [].
  - intros n (rq & rs & b & [] & _).
Qed.

Lemma consistent_transition (e : event) (w w' : world) :
  transition e w w' -> consistent w -> consistent w'.
Proof.
  intros Ht [Hacc Hnd Hun Hans].
  destruct Ht as [target origin w Hne | origin w Hs | origin w Hs | k u w].
  - split; unfold not_found_world, awaiting in *;
      cbn [inflight accepted trace] in *.
    + intros n Hin. apply Nat.lt_lt_succ_r. apply Hacc; exact Hin.
    + exact Hnd.
    + intros n Hin Ha. apply answered_app in Ha. destruct Ha as [Ha|Ha].
      * exact (Hun n Hin Ha).
      * apply answered_one in Ha. cbn [conn] in Ha. subst n.
        exact (Nat.lt_irrefl _ (Hacc _ Hin)).
    + intros n Ha. apply answered_app in Ha. destruct Ha as [Ha|Ha].
      * apply Nat.lt_lt_succ_r. apply Hans; exact Ha.
      * apply answered_one in Ha. cbn [conn] in Ha. subst n.
        apply Nat.lt_succ_diag_r.
  - assert (Hsame : forall n,
              answered n ((trace w ++ [ConsoleLog "Time for a refetch"])
                            ++ [HttpsGet stationsFeedUrl]) ->
              answered n (trace w)).
    { intros n Ha. apply answered_app in Ha. destruct Ha as [Ha|Ha].
      - apply answered_app in Ha. destruct Ha as [Ha|Ha]; [exact Ha|].
        apply answered_one in Ha. contradiction.
      - apply answered_one in Ha. contradiction. }
    split; unfold refetch_world, awaiting in *;
      cbn [inflight accepted trace] in *; rewrite ?map_app in *;
      cbn [map callback_request conn] in *.
    + intros n Hin. apply in_app_or in Hin. destruct Hin as [Hin|[<-|[]]].
      * apply Nat.lt_lt_succ_r. apply Hacc; exact Hin.
      * apply Nat.lt_succ_diag_r.
    + apply NoDup_app; [exact Hnd | repeat constructor; intros [] |].
      intros n Hin [<-|[]]. exact (Nat.lt_irrefl _ (Hacc _ Hin)).
    + intros n Hin Ha. apply Hsame in Ha.
      apply in_app_or in Hin. destruct Hin as [Hin|[<-|[]]].
      * exact (Hun n Hin Ha).
      * exact (Nat.lt_irrefl _ (Hans _ Ha)).
    + intros n Ha. apply Nat.lt_lt_succ_r. apply Hans, Hsame, Ha.
  - assert (Hsplit : forall n,
              answered n (trace (cached_world origin w)) ->
              answered n (trace w) \/ n = accepted w).
    { intros n Ha. unfold cached_world in Ha. cbn [trace] in Ha.
      apply answered_app in Ha. destruct Ha as [Ha|Ha].
      - apply answered_app in Ha. destruct Ha as [Ha|Ha]; [left; exact Ha|].
        apply answered_one in Ha. contradiction.
      - apply answered_one in Ha. cbn [conn] in Ha. right. symmetry.
        exact Ha. }
    split.
    + intros n Hin. apply Nat.lt_lt_succ_r. apply Hacc; exact Hin.
    + exact Hnd.
    + intros n Hin Ha. apply Hsplit in Ha. destruct Ha as [Ha| ->].
      * exact (Hun n Hin Ha).
      * exact (Nat.lt_irrefl _ (Hacc _ Hin)).
    + intros n Ha. apply Hsplit in Ha. destruct Ha as [Ha| ->].
      * apply Nat.lt_lt_succ_r. apply Hans; exact Ha.
      * apply Nat.lt_succ_diag_r.
  - unfold after_upstream.
    destruct (nth_error (inflight w) k) as [cb|] eqn:Hk;
      [|split; assumption].
    pose proof (awaiting_nth w k cb Hk) as Hk'.
    destruct (remove_nth_NoDup k (awaiting w) _ Hnd Hk') as [Hnd' Hout].
    assert (Hsub : forall n, In n (remove_nth k (awaiting w)) ->
                             In n (awaiting w))
      by (intros n; apply remove_nth_In).
    destruct (outcome u) as [stations|err];
      split; unfold awaiting in *; cbn [inflight accepted trace] in *;
      rewrite ?remove_nth_map in *.
    + intros n Hin. apply Hacc, Hsub, Hin.
    + exact Hnd'.
    + intros n Hin Ha. apply answered_app in Ha. destruct Ha as [Ha|Ha].
      * exact (Hun n (Hsub n Hin) Ha).
      * apply answered_one in Ha. subst n. exact (Hout Hin).
    + intros n Ha. apply answered_app in Ha. destruct Ha as [Ha|Ha].
      * apply Hans; exact Ha.
      * apply answered_one in Ha. subst n. apply Hacc.
        eapply nth_error_In; exact Hk'.
    + intros n Hin. apply Hacc, Hsub, Hin.
    + exact Hnd'.
    + intros n Hin Ha. apply answered_app in Ha. destruct Ha as [Ha|Ha].
      * exact (Hun n (Hsub n Hin) Ha).
      * apply answered_one in Ha. contradiction.
    + intros n Ha. apply answered_app in Ha. destruct Ha as [Ha|Ha].
      * apply Hans; exact Ha.
      * apply answered_one in Ha. contradiction.
Qed.


(** *** The clock along a run *)

Lemma transition_clock (e : event) (w w' : world) :
  transition e w w' -> clock w' = clock w /\ ticks w <= ticks w'.
Proof.
  intros Ht.
  destruct Ht as [target origin w Hne | origin w Hs | origin w Hs | k u w].
  - split; [reflexivity | simpl; lia].
  - split; [reflexivity | simpl; lia].
  - split; [reflexivity | simpl; lia].
  - unfold after_upstream.
    destruct (nth_error (inflight w) k); [|split; [reflexivity | lia]].
    destruct (outcome u); split; solve [reflexivity | simpl; lia].
Qed.

Lemma run_clock (evs : list event) (w : world) :
  clock (run evs w) = clock w /\ ticks w <= ticks (run evs w).
Proof.
  revert w. induction evs as [|e evs IH]; intros w; [split; auto|].
  destruct (transition_clock e w _ (step_transition e w)) as [Hc' Ht'].
  cbn [run]. unfold exec in Hc', Ht'.
  destruct (step e w) as [[[]|err] w']; cbn [snd] in Hc', Ht';
    [|split; assumption].
  destruct (IH w') as [Hc Ht]. split; [congruence | lia].
Qed.

Lemma fetches_snoc (tr : list effect) (e : effect) :
  fetches (tr ++ [e]) = fetches tr + (if is_fetch e then 1 else 0).
Proof.
  unfold fetches. rewrite filter_app, length_app. simpl.
  destruct (is_fetch e); reflexivity.
Qed.

(** *** Runs that end and runs that go on *)



(** ** A fetch that fails *)


(** ** What a request for [/] is answered *)

Lemma outcome_normal (u : upstream) (stations : value) :
  outcome u = Normal stations -> cache_value stations.
Proof.
  destruct u as [|[raw|e]]; cbn [outcome cbind]; try discriminate.
  intros H. right. exists raw.
  rewrite transformFeed_shape in H.
  destruct raw as [| | b | n | s | elems | props]; try discriminate.
  destruct (own_property "stationBeanList" props) as [list|] eqn:Hl;
    try discriminate.
  destruct list as [| | b | n | s | sts | props']; try discriminate.
  destruct (forallb (fun s => negb (nullish s)) sts) eqn:Hall;
    try discriminate.
  injection H as <-. exists (map feature_of sts).
  split; [|reflexivity].
  rewrite transformFeed_shape, Hl, Hall. reflexivity.
Qed.

Lemma json_body_cache_value (json : value) :
  cache_value json -> JSON_stringify json 3 = Some (json_body json).
Proof.
  unfold json_body.
  intros [->|(raw & features & _ & ->)]; reflexivity.
Qed.

Lemma outcome_collection (u : upstream) (stations : value) :
  outcome u = Normal stations ->
  exists features, stations = FeatureCollection features.
Proof.
  intros H. destruct (outcome_normal u stations H)
    as [->|(raw & features & _ & ->)].
  - exfalso. destruct u as [|[raw|e]]; cbn [outcome cbind] in H;
      try discriminate.
    rewrite transformFeed_shape in H.
    destruct raw as [| | b | n | s | elems | props]; try discriminate.
    destruct (own_property "stationBeanList" props) as [list|];
      try discriminate.
    destruct list as [| | b | n | s | sts | props']; try discriminate.
    destruct (forallb (fun s => negb (nullish s)) sts); discriminate.
  - exists features. reflexivity.
Qed.

Lemma serves_well_initial (readings : nat -> Z) :
  serves_well (initial readings).
Proof.
  split; [left; reflexivity|]. intros request response body [].
Qed.

Lemma serves_well_transition (e : event) (w w' : world) :
  transition e w w' -> serves_well w -> serves_well w'.
Proof.
  intros Ht [Hcache Htrace].
  destruct Ht as [target origin w Hne | origin w Hs | origin w Hs | k u w].
  - split; [exact Hcache|]. intros rq rs b Hin.
    unfold not_found_world in Hin. cbn [trace] in Hin.
    apply in_app_or in Hin. destruct Hin as [Hin|[Heq|[]]].
    + apply Htrace; exact Hin.
    + injection Heq as <- <- <-. left. cbn [url statusCode].
      repeat split. exact Hne.
  - split; [exact Hcache|]. intros rq rs b Hin.
    unfold refetch_world in Hin. cbn [trace] in Hin.
    apply in_app_or in Hin. destruct Hin as [Hin|[Heq|[]]];
      [|discriminate].
    apply in_app_or in Hin. destruct Hin as [Hin|[Heq|[]]];
      [|discriminate].
    apply Htrace; exact Hin.
  - split; [exact Hcache|]. intros rq rs b Hin.
    unfold cached_world in Hin. cbn [trace] in Hin.
    apply in_app_or in Hin. destruct Hin as [Hin|[Heq|[]]].
    + apply in_app_or in Hin. destruct Hin as [Hin|[Heq|[]]];
        [|discriminate].
      apply Htrace; exact Hin.
    + injection Heq as <- <- <-. right.
      exists new_response, (cachedStations w). repeat split. exact Hcache.
  - unfold after_upstream.
    destruct (nth_error (inflight w) k) as [cb|]; [|split; assumption].
    destruct (outcome u) as [stations|err] eqn:Hout.
    + pose proof (outcome_normal u stations Hout) as Hst.
      split; [exact Hst|]. intros rq rs b Hin. cbn [trace] in Hin.
      apply in_app_or in Hin. destruct Hin as [Hin|[Heq|[]]].
      * apply Htrace; exact Hin.
      * injection Heq as <- <- <-. right.
        exists (callback_response cb), stations. repeat split. exact Hst.
    + split; [exact Hcache|]. intros rq rs b Hin. cbn [trace] in Hin.
      apply in_app_or in Hin. destruct Hin as [Hin|[Heq|[]]];
        [|discriminate].
      apply Htrace; exact Hin.
Qed.

Lemma step_appends (e : event) (w : world) :
  exists new, trace (exec (step e) w) = trace w ++ new.
Proof.
  destruct (step_transition e w)
    as [target origin w Hne | origin w Hs | origin w Hs | k u w].
  - eexists. reflexivity.
  - eexists. unfold refetch_world. cbn [trace]. rewrite <- app_assoc.
    reflexivity.
  - eexists. unfold cached_world. cbn [trace]. rewrite <- app_assoc.
    reflexivity.
  - unfold after_upstream.
    destruct (nth_error (inflight w) k);
      [|exists []; rewrite app_nil_r; reflexivity].
    destruct (outcome u); eexists; reflexivity.
Qed.

Lemma trace_grows (e : event) (w : world) :
  trace (exec (step e) w) = trace w ++ emitted (step e) w.
Proof.
  destruct (step_appends e w) as [new H].
  rewrite (emitted_exec (step e) w new H). exact H.
Qed.

(** Whatever a run adds to the trace is emitted in one of its turns, with
    the process up when the turn begins. *)
Lemma emitted_in_run (x : effect) (evs : list event) :
  forall w : world,
  In x (trace (run evs w)) ->
  In x (trace w)
  \/ exists before e rest,
       evs = before ++ e :: rest
       /\ alive before w = true
       /\ In x (emitted (step e) (run before w)).
Proof.
  induction evs as [|e evs IH]; intros w Hin; [left; exact Hin|].
  assert (Hturn : In x (trace (exec (step e) w)) ->
                  In x (trace w)
                  \/ exists before e0 rest,
                       e :: evs = before ++ e0 :: rest
                       /\ alive before w = true
                       /\ In x (emitted (step e0) (run before w))).
  { intros H. rewrite trace_grows in H. apply in_app_or in H.
    destruct H as [H|H]; [left; exact H|].
    right. exists [], e, evs. repeat split. exact H. }
  cbn [run] in Hin. unfold exec in Hturn.
  destruct (step e w) as [[[]|err] w'] eqn:Hstep; cbn [snd] in Hturn;
    [|apply Hturn; exact Hin].
  destruct (IH w' Hin) as [H|(before & e0 & rest & -> & Halive & H)];
    [apply Hturn; exact H|].
  right. exists (e :: before), e0, rest.
  split; [reflexivity|]. cbn [alive run]. rewrite Hstep.
  split; [exact Halive | exact H].
Qed.

(** What a turn answers to a request for [/], and from which value. *)
Lemma turn_response (e : event) (w : world) (request : IncomingMessage)
    (response : ServerResponse) (body : string) :
  cache_value (cachedStations w) ->
  In (ResponseEnd request response body) (emitted (step e) w) ->
  url request = "/" ->
  (exists base, response = json_response request base)
  /\ JSON_stringify (cachedStations (exec (step e) w)) 3 = Some body
  /\ ((exists origin,
         e = Incoming "/" origin
         /\ stale w = false
         /\ cachedStations (exec (step e) w) = cachedStations w)
      \/ (exists k raw features,
            e = Upstream k (EndOfBody (Normal raw))
            /\ transformFeed raw = Normal (cachedStations (exec (step e) w))
            /\ cachedStations (exec (step e) w)
                 = FeatureCollection features)).
Proof.
  intros Hcache Hin Hurl.
  destruct e as [target origin | k u].
  - destruct (String.eqb_spec target "/") as [->|Hne].
    + destruct (stale w) eqn:Hs.
      * exfalso. erewrite emitted_exec in Hin.
        2:{ rewrite step_incoming_stale by exact Hs.
            unfold refetch_world. cbn [trace]. rewrite <- app_assoc.
            reflexivity. }
        destruct Hin as [H|[H|[]]]; discriminate.
      * erewrite emitted_exec in Hin.
        2:{ rewrite step_incoming_fresh by exact Hs.
            unfold cached_world. cbn [trace]. rewrite <- app_assoc.
            reflexivity. }
        destruct Hin as [H|[H|[]]]; [discriminate|].
        injection H as <- <- <-.
        rewrite step_incoming_fresh by exact Hs.
        unfold cached_world at 1 2. cbn [cachedStations].
        split; [exists new_response; reflexivity|].
        split; [apply json_body_cache_value; exact Hcache|].
        left. exists origin. repeat split.
    + exfalso. erewrite emitted_exec in Hin.
      2:{ rewrite step_incoming_other by exact Hne. reflexivity. }
      destruct Hin as [H|[]]. injection H as <- _ _.
      apply Hne. exact Hurl.
  - rewrite step_upstream. unfold after_upstream.
    destruct (nth_error (inflight w) k) as [cb|] eqn:Hk.
    2:{ exfalso. erewrite emitted_exec in Hin.
        2:{ rewrite step_upstream. unfold after_upstream. rewrite Hk.
            symmetry. apply app_nil_r. }
        destruct Hin. }
    destruct (outcome u) as [stations|err] eqn:Hout.
    + erewrite emitted_exec in Hin.
      2:{ rewrite step_upstream. unfold after_upstream.
          rewrite Hk, Hout. reflexivity. }
      destruct Hin as [H|[]]. injection H as <- <- <-.
      cbn [cachedStations].
      destruct (outcome_collection u stations Hout) as [features Hf].
      split; [exists (callback_response cb); reflexivity|].
      split.
      { apply json_body_cache_value.
        exact (outcome_normal u stations Hout). }
      right. destruct u as [|[raw|err]]; cbn [outcome cbind] in Hout;
        try discriminate.
      exists k, raw, features. repeat split; assumption.
    + exfalso. erewrite emitted_exec in Hin.
      2:{ rewrite step_upstream. unfold after_upstream.
          rewrite Hk, Hout. reflexivity. }
      destruct Hin as [H|[]]. discriminate.
Qed.

(** C8, as the code has it: every response to a request whose target is
    [/] has status 200, the header [Content-Type: application/json], the
    header [Access-Control-Allow-Origin] equal to the request's [Origin]
    header when that header is present and not empty, and to [*] when it
    is absent or empty.  It is sent in one turn of the run, and its body
    is [JSON.stringify(cachedStations, null, 3)] of the cache as that
    turn leaves it: in the fresh branch the cache as it stands, [null]
    or the FeatureCollection of the last fetch; in the callback of a
    fetch the FeatureCollection that [transformFeed] has just returned
    and the callback has just stored. *)
Theorem root_response_is_json (readings : nat -> Z) (evs : list event)
    (request : IncomingMessage) (response : ServerResponse) (body : string) :
  In (ResponseEnd request response body)
     (trace (run evs (initial readings))) ->
  url request = "/" ->
  statusCode response = 200%Z
  /\ getHeader "Content-Type" response = Some "application/json"
  /\ (forall origin,
        headers_origin request = Some origin -> origin <> "" ->
        getHeader "Access-Control-Allow-Origin" response = Some origin)
  /\ (headers_origin request = None \/ headers_origin request = Some "" ->
      getHeader "Access-Control-Allow-Origin" response = Some "*")
  /\ exists before e rest,
       evs = before ++ e :: rest
       /\ alive before (initial readings) = true
       /\ In (ResponseEnd request response body)
            (emitted (step e) (run before (initial readings)))
       /\ JSON_stringify
            (cachedStations (exec (step e) (run before (initial readings))))
            3 = Some body
       /\ ((exists origin,
              e = Incoming "/" origin
              /\ stale (run before (initial readings)) = false
              /\ cachedStations (exec (step e) (run before (initial readings)))
                   = cachedStations (run before (initial readings))
              /\ (cachedStations (run before (initial readings)) = VNull
                  \/ exists raw features,
                       transformFeed raw
                         = Normal (cachedStations
                                     (run before (initial readings)))
                       /\ cachedStations (run before (initial readings))
                            = FeatureCollection features))
           \/ (exists k raw features,
                 e = Upstream k (EndOfBody (Normal raw))
                 /\ transformFeed raw
                      = Normal (cachedStations
                                  (exec (step e)
                                     (run before (initial readings))))
                 /\ cachedStations
                      (exec (step e) (run before (initial readings)))
                      = FeatureCollection features)).
Proof.
  intros Hin Hurl.
  destruct (emitted_in_run _ evs (initial readings) Hin)
    as [[]|(before & e & rest & Hevs & Halive & Hturn)].
  assert (Hwell : serves_well (run before (initial readings))).
  { apply (run_invariant serves_well).
    - intros e0 w w' Ht Hw. exact (serves_well_transition e0 w w' Ht Hw).
    - apply serves_well_initial. }
  destruct Hwell as [Hcache _].
  destruct (turn_response e _ request response body Hcache Hturn Hurl)
    as ((base & ->) & Hbody & Hcase).
  destruct (json_response_shape request base) as (H1 & H2 & H3).
  split; [exact H1|]. split; [exact H2|].
  split; [|split].
  - intros origin Ho Hne. rewrite H3, Ho. unfold or_default.
    destruct (String.eqb_spec origin ""); [contradiction | reflexivity].
  - intros [Ho|Ho]; rewrite H3, Ho; reflexivity.
  - exists before, e, rest.
    split; [exact Hevs|]. split; [exact Halive|]. split; [exact Hturn|].
    split; [exact Hbody|].
    destruct Hcase as [(origin & He & Hs & Hsame)|Hcase];
      [|right; exact Hcase].
    left. exists origin. repeat split; try assumption.
Qed.

(** ** Bursts of requests *)

Lemma burst_keeps_cache (origins : list (option string)) (w : world) :
  cachedStations (run (burst origins) w) = cachedStations w.
Proof.
  revert w. induction origins as [|o os IH]; intros w; [reflexivity|].
  cbn [burst map]. rewrite run_incoming. fold (burst os). rewrite IH.
  destruct (stale w) eqn:Hs.
  - rewrite step_incoming_stale by exact Hs. reflexivity.
  - rewrite step_incoming_fresh by exact Hs. reflexivity.
Qed.

(** A burst whose readings all stay within the refetch delay of the stamp
    is served from the cache, request by request. *)
Lemma fresh_burst (origins : list (option string)) (w : world) :
  (forall n, ticks w <= n < ticks (run (burst origins) w) ->
             (clock w n <= lastFetchTimeMS w + 30000)%Z) ->
  trace (run (burst origins) w) =
    trace w ++ fresh_responses (accepted w) (cachedStations w) origins.
Proof.
  revert w. induction origins as [|o os IH]; intros w Hfresh.
  - simpl. rewrite app_nil_r. reflexivity.
  - cbn [burst map] in *. rewrite run_incoming in *. fold (burst os) in *.
    destruct (run_clock (burst os) (exec (step (Incoming "/" o)) w))
      as [_ Hrun].
    destruct (stale w) eqn:Hs.
    + exfalso. rewrite step_incoming_stale in Hrun by exact Hs.
      assert (ticks (refetch_world o w) = S (S (ticks w))) by reflexivity.
      rewrite step_incoming_stale in Hfresh by exact Hs.
      unfold stale in Hs.
      change (refetchDelaySeconds * millis)%Z with 30000%Z in Hs.
      apply Z.gtb_gt in Hs.
      assert (clock w (ticks w) <= lastFetchTimeMS w + 30000)%Z
        by (apply Hfresh; lia).
      lia.
    + rewrite step_incoming_fresh in * by exact Hs.
      assert (Ht : ticks (cached_world o w) = S (ticks w)) by reflexivity.
      rewrite IH.
      * unfold cached_world at 1 2 3. cbn [trace accepted cachedStations].
        cbn [fresh_responses]. rewrite <- !app_assoc. reflexivity.
      * intros n Hn.
        change (clock (cached_world o w)) with (clock w).
        change (lastFetchTimeMS (cached_world o w))
          with (lastFetchTimeMS w).
        apply Hfresh. lia.
Qed.

Lemma fetches_app (tr tr' : list effect) :
  fetches (tr ++ tr') = fetches tr + fetches tr'.
Proof.
  unfold fetches. rewrite filter_app, length_app. reflexivity.
Qed.

(** C3: at most one fetch per interval.  Over a burst of requests for [/]
    whose readings of the clock all lie within one millisecond, no
    upstream request ending in between, the requests that find the cache
    stale start exactly one fetch between them: the first request of the
    burst starts it, and every later request takes the fresh branch and
    is answered at once with the cached value as it stands, [null]
    included, without a fetch of its own and without waiting for the one
    in flight.  However the burst begins, it starts at most one fetch and
    does not write the cache. *)
Theorem burst_starts_at_most_one_fetch (origins : list (option string))
    (w : world) (T : Z) :
  let w' := run (burst origins) w in
  (forall n, ticks w <= n < ticks w' -> (T <= clock w n <= T + 1)%Z) ->
  fetches (trace w') <= fetches (trace w) + 1
  /\ cachedStations w' = cachedStations w
  /\ (stale w = true ->
      forall first later, origins = first :: later ->
        fetches (trace w') = fetches (trace w) + 1
        /\ trace w' =
             trace w
               ++ [ConsoleLog "Time for a refetch"; HttpsGet stationsFeedUrl]
               ++ fresh_responses (S (accepted w)) (cachedStations w) later).
Proof.
  intros w' Hwindow.
  assert (Hstale : forall o os v,
    stale v = true ->
    (forall n, ticks v <= n < ticks (run (burst (o :: os)) v) ->
               (T <= clock v n <= T + 1)%Z) ->
    fetches (trace (run (burst (o :: os)) v)) = fetches (trace v) + 1
    /\ trace (run (burst (o :: os)) v) =
         trace v
           ++ [ConsoleLog "Time for a refetch"; HttpsGet stationsFeedUrl]
           ++ fresh_responses (S (accepted v)) (cachedStations v) os).
  { intros o os v Hs Hw. cbn [burst map] in *. rewrite run_incoming in *.
    fold (burst os) in *.
    rewrite step_incoming_stale in * by exact Hs.
    destruct (run_clock (burst os) (refetch_world o v)) as [_ Hrun].
    assert (Ht : ticks (refetch_world o v) = S (S (ticks v)))
      by reflexivity.
    assert (Htr : trace (run (burst os) (refetch_world o v)) =
              trace (refetch_world o v)
                ++ fresh_responses (accepted (refetch_world o v))
                     (cachedStations (refetch_world o v)) os).
    { apply fresh_burst. intros n Hn.
      change (clock (refetch_world o v)) with (clock v).
      change (lastFetchTimeMS (refetch_world o v))
        with (clock v (S (ticks v))).
      assert (T <= clock v (S (ticks v)) <= T + 1)%Z by (apply Hw; lia).
      assert (T <= clock v n <= T + 1)%Z by (apply Hw; lia).
      lia. }
    assert (Htr' : trace (run (burst os) (refetch_world o v)) =
              trace v
                ++ [ConsoleLog "Time for a refetch";
                    HttpsGet stationsFeedUrl]
                ++ fresh_responses (S (accepted v)) (cachedStations v) os).
    { rewrite Htr. unfold refetch_world.
      cbn [trace accepted cachedStations]. rewrite <- !app_assoc.
      reflexivity. }
    split; [|exact Htr'].
    rewrite Htr'. rewrite !fetches_app.
    assert (Hnone : forall n c l, fetches (fresh_responses n c l) = 0).
    { intros n c l. revert n.
      induction l as [|x l IHl]; intros n; [reflexivity|].
      cbn [fresh_responses]. unfold fetches in *. simpl. apply IHl. }
    rewrite Hnone. unfold fetches. simpl. lia. }
  split; [|split].
  - unfold w' in *. clear w'. revert w Hwindow.
    induction origins as [|o os IH]; intros w Hwindow; [simpl; lia|].
    destruct (stale w) eqn:Hs.
    + destruct (Hstale o os w Hs Hwindow) as [E _]. lia.
    + cbn [burst map] in *. rewrite run_incoming in *.
      fold (burst os) in *.
      rewrite step_incoming_fresh in * by exact Hs.
      assert (Ht : ticks (cached_world o w) = S (ticks w)) by reflexivity.
      assert (Hf : fetches (trace (cached_world o w)) = fetches (trace w)).
      { unfold cached_world. cbn [trace]. rewrite !fetches_snoc. simpl.
        lia. }
      rewrite <- Hf. apply IH. intros n Hn.
      change (clock (cached_world o w)) with (clock w).
      apply Hwindow. lia.
  - apply burst_keeps_cache.
  - intros Hs first later ->. apply Hstale; assumption.
Qed.

(** ** The transformer over a store *)

Lemma traverse_ext {A B : Type} (f g : A -> option B) (l : list A)
    (ys : list B) :
  (forall x y, In x l -> f x = Some y -> g x = Some y) ->
  traverse f l = Some ys -> traverse g l = Some ys.
Proof.
  revert ys. induction l as [|a l IH]; intros ys Hfg H; [exact H|].
  cbn [traverse] in *.
  destruct (f a) as [y|] eqn:Hy; [|discriminate].
  destruct (traverse f l) as [ys'|] eqn:Hys; [|discriminate].
  rewrite (Hfg a y (or_introl eq_refl) Hy).
  rewrite (IH ys' (fun x y' Hin => Hfg x y' (or_intror Hin)) eq_refl).
  exact H.
Qed.

Lemma extends_refl (h : store) : extends h h.
Proof. exists []. rewrite app_nil_r. reflexivity. Qed.

Lemma extends_trans (h1 h2 h3 : store) :
  extends h1 h2 -> extends h2 h3 -> extends h1 h3.
Proof.
  intros [c1 ->] [c2 ->]. exists (c1 ++ c2). rewrite app_assoc.
  reflexivity.
Qed.

Lemma extends_nth (h h' : store) (address : nat) (c : cell) :
  extends h h' -> nth_error h address = Some c ->
  nth_error h' address = Some c.
Proof.
  intros [cells ->] H. rewrite nth_error_app1; [exact H|].
  apply nth_error_Some. congruence.
Qed.

Lemma nth_allocated (c : cell) (h : store) :
  nth_error (h ++ [c]) (List.length h) = Some c.
Proof.
  rewrite nth_error_app2 by apply Nat.le_refl.
  rewrite Nat.sub_diag. reflexivity.
Qed.

(** Reading deeper, or in a store with more cells, reads the same. *)
Lemma contents_mono (n m : nat) (h h' : store) (v : ref_value) (x : value) :
  n <= m -> extends h h' ->
  contents n h v = Some x -> contents m h' v = Some x.
Proof.
  intros Hnm Hext. revert m v x Hnm.
  induction n as [|n IH]; intros m v x Hnm H.
  - destruct v; destruct m; cbn [contents] in *; try exact H; discriminate.
  - destruct v; destruct m; cbn [contents] in *; try exact H; try lia.
    destruct (nth_error h address) as [c|] eqn:Hc; [|discriminate].
    rewrite (extends_nth h h' address c Hext Hc).
    assert (Hle : n <= m) by lia.
    destruct c as [elems|props].
    + destruct (traverse (contents n h) elems) as [ys|] eqn:Hys;
        [|discriminate].
      rewrite (traverse_ext (contents n h) (contents m h') elems ys);
        [exact H | | exact Hys].
      intros e y _ He. apply IH; assumption.
    + destruct (traverse
                  (fun p => option_map (pair (fst p)) (contents n h (snd p)))
                  props) as [ys|] eqn:Hys; [|discriminate].
      rewrite (traverse_ext
                 (fun p => option_map (pair (fst p)) (contents n h (snd p)))
                 (fun p => option_map (pair (fst p))
                             (contents m h' (snd p))) props ys);
        [exact H | | exact Hys].
      intros p y _ Hp. cbv beta in *.
      destruct (contents n h (snd p)) as [z|] eqn:Hz; [|discriminate].
      rewrite (IH m (snd p) z Hle Hz). exact Hp.
Qed.

Lemma own_property_traverse {A B : Type} (f : A -> option B) (key : string)
    (props : list (string * A)) (vprops : list (string * B)) :
  traverse (fun p => option_map (pair (fst p)) (f (snd p))) props
    = Some vprops ->
  match own_property key props with
  | Some a => exists b, f a = Some b /\ own_property key vprops = Some b
  | None => own_property key vprops = None
  end.
Proof.
  revert vprops. induction props as [|[k a] props IH]; intros vprops H.
  - injection H as <-. reflexivity.
  - cbn [traverse fst snd] in H.
    destruct (f a) as [b|] eqn:Hb; [|discriminate]. cbn [option_map] in H.
    destruct (traverse
                (fun p => option_map (pair (fst p)) (f (snd p))) props)
      as [vs|] eqn:Hvs; [|discriminate].
    injection H as <-. cbn [own_property].
    destruct (String.eqb k key).
    + exists b. split; [exact Hb | reflexivity].
    + apply IH. reflexivity.
Qed.

(** A property read in the store reads what the read on the tree gives. *)
Lemma get_in_refines (n : nat) (h : store) (v : ref_value) (x : value)
    (key : string) :
  contents n h v = Some x ->
  match get x key with
  | Throw e => get_in h v key = Throw e
  | Normal y =>
      exists ry, get_in h v key = Normal ry /\ contents n h ry = Some y
  end.
Proof.
  intros H.
  destruct v as [| | b | num | s | address].
  1-5: destruct n; cbn [contents] in H; injection H as <-; cbn [get get_in];
       try reflexivity; (exists RUndefined; split; reflexivity).
  destruct n as [|n]; cbn [contents] in H; [discriminate|].
  cbn [get_in].
  destruct (nth_error h address) as [[elems|props]|] eqn:Hc;
    [| |discriminate].
  - destruct (traverse (contents n h) elems); [|discriminate].
    injection H as <-. exists RUndefined. split; reflexivity.
  - destruct (traverse
                (fun p => option_map (pair (fst p)) (contents n h (snd p)))
                props) as [vprops|] eqn:Hv; [|discriminate].
    injection H as <-. cbn [get].
    pose proof (own_property_traverse (contents n h) key props vprops Hv)
      as Hown.
    destruct (own_property key props) as [rv|].
    + destruct Hown as (y & Hy & ->). exists rv. split; [reflexivity|].
      apply (contents_mono n (S n) h h rv y);
        [lia | apply extends_refl | exact Hy].
    + rewrite Hown. exists RUndefined. split; reflexivity.
Qed.

Lemma contents_ref (n : nat) (h : store) (address : nat) :
  contents (S n) h (RRef address) =
    match nth_error h address with
    | Some (ArrayCell elems) =>
        option_map VArray (traverse (contents n h) elems)
    | Some (ObjectCell props) =>
        option_map VObject
          (traverse
             (fun p => option_map (pair (fst p)) (contents n h (snd p)))
             props)
    | None => None
    end.
Proof. reflexivity. Qed.

Lemma contents_string (n : nat) (h : store) (s : string) :
  contents n h (RString s) = Some (VString s).
Proof. destruct n; reflexivity. Qed.

Lemma transformStation_in_refines (n : nat) (h : store)
    (station : ref_value) (sv : value) :
  contents n h station = Some sv ->
  extends h (snd (transformStation_in station h))
  /\ match transformStation sv with
     | Throw e => fst (transformStation_in station h) = Throw e
     | Normal feature =>
         exists a,
           fst (transformStation_in station h) = Normal (RRef a)
           /\ contents (3 + n) (snd (transformStation_in station h)) (RRef a)
                = Some feature
     end.
Proof.
  intros Hsv. unfold transformStation, transformStation_in.
  pose proof (get_in_refines n h station sv "longitude" Hsv) as Hlon.
  pose proof (get_in_refines n h station sv "latitude" Hsv) as Hlat.
  destruct (get sv "longitude") as [lon|e].
  2:{ rewrite Hlon. split; [apply extends_refl | reflexivity]. }
  destruct Hlon as (rlon & -> & Hrlon).
  destruct (get sv "latitude") as [lat|e].
  2:{ rewrite Hlat. split; [apply extends_refl | reflexivity]. }
  destruct Hlat as (rlat & -> & Hrlat).
  cbn [cbind]. unfold allocate. cbn [fst snd].
  set (c1 := ArrayCell [rlon; rlat]).
  set (h1 := h ++ [c1]).
  set (c2 := ObjectCell [ ("type", RString "Point");
                          ("coordinates", RRef (List.length h)) ]).
  set (h2 := h1 ++ [c2]).
  set (c3 := ObjectCell [ ("type", RString "Feature");
                          ("geometry", RRef (List.length h1));
                          ("properties", station) ]).
  set (h3 := h2 ++ [c3]).
  assert (E1 : extends h h1) by (exists [c1]; reflexivity).
  assert (E2 : extends h1 h2) by (exists [c2]; reflexivity).
  assert (E3 : extends h2 h3) by (exists [c3]; reflexivity).
  assert (E13 : extends h1 h3) by (eapply extends_trans; eassumption).
  assert (E03 : extends h h3) by (eapply extends_trans; eassumption).
  split; [exact E03|].
  exists (List.length h2). split; [reflexivity|].
  assert (A1 : contents (S n) h3 (RRef (List.length h))
               = Some (VArray [lon; lat])).
  { rewrite contents_ref.
    rewrite (extends_nth h1 h3 _ c1 E13 (nth_allocated c1 h)).
    unfold c1. cbn [traverse].
    rewrite (contents_mono n n h h3 rlon lon (Nat.le_refl n) E03 Hrlon).
    rewrite (contents_mono n n h h3 rlat lat (Nat.le_refl n) E03 Hrlat).
    reflexivity. }
  assert (A2 : contents (S (S n)) h3 (RRef (List.length h1))
               = Some (VObject [ ("type", VString "Point");
                                 ("coordinates", VArray [lon; lat]) ])).
  { rewrite contents_ref.
    rewrite (extends_nth h2 h3 _ c2 E3 (nth_allocated c2 h1)).
    unfold c2. cbn [traverse fst snd].
    rewrite contents_string, A1. reflexivity. }
  change (3 + n) with (S (S (S n))). rewrite contents_ref.
  unfold h3 at 1. rewrite nth_allocated. fold h3.
  unfold c3. cbn [traverse fst snd].
  rewrite contents_string, A2.
  rewrite (contents_mono n (S (S n)) h h3 station sv);
    [|lia|exact E03|exact Hsv].
  reflexivity.
Qed.

Lemma map_in_refines (n : nat) (elems : list ref_value) :
  forall (h : store) (svs : list value),
  traverse (contents n h) elems = Some svs ->
  extends h (snd (map_in transformStation_in elems h))
  /\ match map_completion transformStation svs with
     | Throw e => fst (map_in transformStation_in elems h) = Throw e
     | Normal features =>
         exists results,
           fst (map_in transformStation_in elems h) = Normal results
           /\ traverse
                (contents (3 + n) (snd (map_in transformStation_in elems h)))
                results = Some features
     end.
Proof.
  induction elems as [|x elems IH]; intros h svs H.
  - injection H as <-. cbn [map_in map_completion fst snd].
    split; [apply extends_refl|]. exists []. split; reflexivity.
  - cbn [traverse] in H.
    destruct (contents n h x) as [sx|] eqn:Hx; [|discriminate].
    destruct (traverse (contents n h) elems) as [svs'|] eqn:Hrest;
      [|discriminate].
    injection H as <-. cbn [map_in map_completion].
    destruct (transformStation_in_refines n h x sx Hx) as [E1 Hfirst].
    destruct (transformStation_in x h) as [r1 h1]. cbn [fst snd] in *.
    destruct (transformStation sx) as [feature|e].
    2:{ rewrite Hfirst. split; [exact E1 | reflexivity]. }
    destruct Hfirst as (a & -> & Ha).
    assert (Hrest' : traverse (contents n h1) elems = Some svs').
    { apply (traverse_ext (contents n h)); [|exact Hrest].
      intros y sy _ Hy.
      apply (contents_mono n n h h1 y sy (Nat.le_refl n) E1 Hy). }
    destruct (IH h1 svs' Hrest') as [E2 Hothers].
    destruct (map_in transformStation_in elems h1) as [r2 h2].
    cbn [fst snd cbind] in *.
    destruct (map_completion transformStation svs') as [features|e].
    2:{ rewrite Hothers.
        split; [eapply extends_trans; eassumption | reflexivity]. }
    destruct Hothers as (results & -> & Hresults).
    split; [eapply extends_trans; eassumption|].
    exists (RRef a :: results). split; [reflexivity|].
    cbn [traverse fst snd].
    rewrite (contents_mono (3 + n) (3 + n) h1 h2 (RRef a) feature
               (Nat.le_refl _) E2 Ha).
    rewrite Hresults. reflexivity.
Qed.

(** The store-level transformer computes what [transformFeed] computes on
    the tree its argument stands for, and only adds cells to the store. *)
Lemma transformFeed_in_refines (n : nat) (h : store) (raw : ref_value)
    (feed : value) :
  contents n h raw = Some feed ->
  extends h (snd (transformFeed_in raw h))
  /\ match transformFeed feed with
     | Throw e => fst (transformFeed_in raw h) = Throw e
     | Normal collection =>
         exists a,
           fst (transformFeed_in raw h) = Normal (RRef a)
           /\ contents (5 + n) (snd (transformFeed_in raw h)) (RRef a)
                = Some collection
     end.
Proof.
  intros Hraw. unfold transformFeed, transformFeed_in.
  pose proof (get_in_refines n h raw feed "stationBeanList" Hraw) as Hget.
  destruct (get feed "stationBeanList") as [listv|e].
  2:{ rewrite Hget. split; [apply extends_refl | reflexivity]. }
  destruct Hget as (rlist & -> & Hlist). cbn [cbind].
  destruct rlist as [| | b | num | s | address].
  1-5: destruct n; cbn [contents] in Hlist; injection Hlist as <-;
       (split; [apply extends_refl | reflexivity]).
  destruct n as [|n]; cbn [contents] in Hlist; [discriminate|].
  destruct (nth_error h address) as [[elems|props]|]; [| |discriminate].
  2:{ destruct (traverse
                  (fun p => option_map (pair (fst p))
                              (contents n h (snd p))) props);
        [|discriminate].
      injection Hlist as <-. split; [apply extends_refl | reflexivity]. }
  destruct (traverse (contents n h) elems) as [svs|] eqn:Hsvs;
    [|discriminate].
  injection Hlist as <-. cbn [call_map].
  destruct (map_in_refines n elems h svs Hsvs) as [E1 Hmap].
  destruct (map_in transformStation_in elems h) as [r1 h1].
  cbn [fst snd] in *.
  destruct (map_completion transformStation svs) as [features|e].
  2:{ rewrite Hmap. split; [exact E1 | reflexivity]. }
  destruct Hmap as (results & -> & Hresults).
  cbn [cbind]. unfold allocate. cbn [fst snd].
  set (c2 := ArrayCell results).
  set (h2 := h1 ++ [c2]).
  set (c3 := ObjectCell [ ("type", RString "FeatureCollection");
                          ("features", RRef (List.length h1)) ]).
  set (h3 := h2 ++ [c3]).
  assert (E2 : extends h1 h2) by (exists [c2]; reflexivity).
  assert (E3 : extends h2 h3) by (exists [c3]; reflexivity).
  assert (E13 : extends h1 h3) by (eapply extends_trans; eassumption).
  split; [eapply extends_trans; eassumption|].
  exists (List.length h2). split; [reflexivity|].
  assert (A2 : contents (5 + n) h3 (RRef (List.length h1))
               = Some (VArray features)).
  { change (5 + n) with (S (4 + n)). rewrite contents_ref.
    rewrite (extends_nth h2 h3 _ c2 E3 (nth_allocated c2 h1)).
    unfold c2.
    rewrite (traverse_ext (contents (3 + n) h1) (contents (4 + n) h3)
               results features); [reflexivity | | exact Hresults].
    intros y sy _ Hy.
    apply (contents_mono (3 + n) (4 + n) h1 h3 y sy); [lia | exact E13 |].
    exact Hy. }
  change (5 + S n) with (S (5 + n)). rewrite contents_ref.
  unfold h3 at 1. rewrite nth_allocated. fold h3.
  unfold c3. cbn [traverse fst snd].
  rewrite contents_string, A2. reflexivity.
Qed.

(** C9: the transformer is pure and deterministic.  Called twice on the
    same feed, it throws the same error twice or returns two
    FeatureCollections that stand for the same tree; a call adds cells to
    the store and changes none, so the feed given still stands for what
    it stood for; and neither function has any of the server's state in
    its reach. *)
Theorem transformFeed_is_pure (n : nat) (h : store) (raw : ref_value)
    (feed : value) :
  contents n h raw = Some feed ->
  let first := transformFeed_in raw h in
  let second := transformFeed_in raw (snd first) in
  extends h (snd first)
  /\ extends (snd first) (snd second)
  /\ contents n (snd second) raw = Some feed
  /\ match transformFeed feed with
     | Throw e => fst first = Throw e /\ fst second = Throw e
     | Normal collection =>
         exists a1 a2,
           fst first = Normal (RRef a1)
           /\ fst second = Normal (RRef a2)
           /\ contents (5 + n) (snd second) (RRef a1) = Some collection
           /\ contents (5 + n) (snd second) (RRef a2) = Some collection
     end.
Proof.
  intros Hraw first second.
  destruct (transformFeed_in_refines n h raw feed Hraw) as [E1 H1].
  fold first in E1, H1.
  assert (Hraw1 : contents n (snd first) raw = Some feed)
    by (apply (contents_mono n n h); [lia | exact E1 | exact Hraw]).
  destruct (transformFeed_in_refines n (snd first) raw feed Hraw1)
    as [E2 H2].
  fold second in E2, H2.
  split; [exact E1|]. split; [exact E2|].
  split.
  { apply (contents_mono n n (snd first)); [lia | exact E2 | exact Hraw1]. }
  destruct (transformFeed feed) as [collection|e].
  - destruct H1 as (a1 & Hr1 & Hc1). destruct H2 as (a2 & Hr2 & Hc2).
    exists a1, a2. repeat split; try assumption.
    apply (contents_mono (5 + n) (5 + n) (snd first));
      [lia | exact E2 | exact Hc1].
  - split; assumption.
Qed.

(** ** Every request is answered at most once *)

Lemma responders_app (tr tr' : list effect) :
  responders (tr ++ tr') = responders tr ++ responders tr'.
Proof.
  induction tr as [|e tr IH]; [reflexivity|].
  destruct e; cbn [responders app]; rewrite IH; reflexivity.
Qed.

Lemma responders_answered (n : nat) (tr : list effect) :
  In n (responders tr) <-> answered n tr.
Proof.
  unfold answered. induction tr as [|e tr IH].
  - split; [intros [] | intros (rq & rs & b & [] & _)].
  - split.
    + intros Hin.
      assert (Hcase : (exists rq rs b, e = ResponseEnd rq rs b /\ conn rq = n)
                      \/ In n (responders tr)).
      { destruct e as [line | feed | rq rs b | err];
          cbn [responders] in Hin; auto.
        destruct Hin as [Hn|Hin]; [left; exists rq, rs, b; auto | auto]. }
      destruct Hcase as [(rq & rs & b & -> & Hn) | Hin'].
      * exists rq, rs, b. split; [left; reflexivity | exact Hn].
      * apply IH in Hin'. destruct Hin' as (rq & rs & b & Hin' & Hn).
        exists rq, rs, b. split; [right; exact Hin' | exact Hn].
    + intros (rq & rs & b & [Heq|Hin] & Hn).
      * subst e. left. exact Hn.
      * assert (In n (responders tr))
          by (apply IH; exists rq, rs, b; auto).
        destruct e; cbn [responders]; auto. right. assumption.
Qed.

Lemma answered_once_transition (e : event) (w w' : world) :
  transition e w w' ->
  consistent w -> NoDup (responders (trace w)) ->
  NoDup (responders (trace w')).
Proof.
  intros Ht [Hacc Hnd Hun Hans] Hresp.
  assert (Hsnoc : forall n tr,
            NoDup (responders tr) -> ~ answered n tr ->
            NoDup (responders tr ++ [n])).
  { intros n tr H1 H2. apply NoDup_app; [exact H1 | repeat constructor;
      intros [] |].
    intros m Hm [<-|[]]. apply H2. apply responders_answered. exact Hm. }
  destruct Ht as [target origin w Hne | origin w Hs | origin w Hs | k u w].
  - unfold not_found_world. cbn [trace]. rewrite responders_app.
    apply Hsnoc; [exact Hresp|].
    intros Ha. exact (Nat.lt_irrefl _ (Hans _ Ha)).
  - unfold refetch_world. cbn [trace]. rewrite !responders_app.
    cbn [responders]. rewrite !app_nil_r. exact Hresp.
  - unfold cached_world. cbn [trace]. rewrite !responders_app.
    cbn [responders]. rewrite app_nil_r.
    apply Hsnoc; [exact Hresp|].
    intros Ha. exact (Nat.lt_irrefl _ (Hans _ Ha)).
  - unfold after_upstream.
    destruct (nth_error (inflight w) k) as [cb|] eqn:Hk; [|exact Hresp].
    destruct (outcome u) as [stations|err]; cbn [trace];
      rewrite responders_app; cbn [responders].
    + apply Hsnoc; [exact Hresp|]. apply Hun.
      eapply nth_error_In. apply awaiting_nth. exact Hk.
    + rewrite app_nil_r. exact Hresp.
Qed.

(** X1: in every run, no request is answered twice: [response.end] is
    called at most once on each response, whether the answer comes from
    the handler itself or from the callback of a fetch. *)
Theorem no_request_is_answered_twice (readings : nat -> Z)
    (evs : list event) :
  NoDup (responders (trace (run evs (initial readings)))).
Proof.
  assert (H : consistent (run evs (initial readings))
              /\ NoDup (responders (trace (run evs (initial readings))))).
  { apply (run_invariant
             (fun w => consistent w /\ NoDup (responders (trace w)))).
    - intros e w w' Ht [Hc Hn]. split.
      + exact (consistent_transition e w w' Ht Hc).
      + exact (answered_once_transition e w w' Ht Hc Hn).
    - split; [apply consistent_initial | constructor]. }
  exact (proj2 H).
Qed.

(** ** Every request is accounted for *)

Lemma failures_snoc (tr : list effect) (e : effect) :
  failures (tr ++ [e]) = failures tr + (if is_uncaught e then 1 else 0).
Proof.
  unfold failures. rewrite filter_app, length_app. simpl.
  destruct (is_uncaught e); reflexivity.
Qed.

Lemma remove_nth_length {A : Type} (k : nat) (l : list A) (x : A) :
  nth_error l k = Some x ->
  S (List.length (remove_nth k l)) = List.length l.
Proof.
  intros Hk. destruct (nth_error_split l k Hk) as (l1 & l2 & -> & <-).
  rewrite remove_nth_middle, !length_app. simpl. lia.
Qed.

(** X2: in every run, the answers given, the fetches in flight and the
    uncaught exceptions add up to the number of requests that have come
    in: a request is answered, or waits for its fetch to end, or was left
    without an answer by a fetch that failed. *)
Theorem every_request_is_accounted_for (readings : nat -> Z)
    (evs : list event) :
  let w := run evs (initial readings) in
  List.length (responders (trace w)) + List.length (inflight w)
    + failures (trace w)
  = accepted w.
Proof.
  apply (run_invariant
           (fun w =>
              List.length (responders (trace w)) + List.length (inflight w)
                + failures (trace w) = accepted w)); [|reflexivity].
  intros e w w' Ht Hw.
  destruct Ht as [target origin w Hne | origin w Hs | origin w Hs | k u w].
  - unfold not_found_world. cbn [trace inflight accepted].
    rewrite responders_app, length_app, failures_snoc. simpl. lia.
  - unfold refetch_world. cbn [trace inflight accepted].
    rewrite !responders_app, !length_app, !failures_snoc. simpl. lia.
  - unfold cached_world. cbn [trace inflight accepted].
    rewrite !responders_app, !length_app, !failures_snoc. simpl. lia.
  - unfold after_upstream.
    destruct (nth_error (inflight w) k) as [cb|] eqn:Hk; [|exact Hw].
    pose proof (remove_nth_length k (inflight w) cb Hk) as Hlen.
    destruct (outcome u) as [stations|err]; cbn [trace inflight accepted];
      rewrite responders_app, length_app, failures_snoc; simpl; lia.
Qed.

(** ** The rate of upstream fetches *)

Lemma fetches_refetch (origin : option string) (w : world) :
  fetches (trace (refetch_world origin w)) = S (fetches (trace w)).
Proof.
  unfold refetch_world. cbn [trace]. rewrite !fetches_snoc. simpl. lia.
Qed.

(** X3: with a clock that never runs backwards, every fetch moves the
    stamp forward by more than the refetch delay, so a run of the server
    starts at most one fetch per 30001 milliseconds of clock time, however
    many requests come in and whenever the fetches end; and the stamp is
    zero or a reading the clock has given. *)
Theorem fetches_are_rate_limited (readings : nat -> Z) (evs : list event) :
  (forall i j, i <= j -> (readings i <= readings j)%Z) ->
  let w := run evs (initial readings) in
  (30001 * Z.of_nat (fetches (trace w)) <= lastFetchTimeMS w)%Z
  /\ (lastFetchTimeMS w = 0%Z
      \/ exists k, k < ticks w /\ lastFetchTimeMS w = readings k).
Proof.
  intros Hmono.
  assert (H : let w := run evs (initial readings) in
              clock w = readings
              /\ (30001 * Z.of_nat (fetches (trace w))
                  <= lastFetchTimeMS w)%Z
              /\ (lastFetchTimeMS w = 0%Z
                  \/ exists k, k < ticks w /\ lastFetchTimeMS w = readings k)).
  { apply (run_invariant
             (fun w =>
                clock w = readings
                /\ (30001 * Z.of_nat (fetches (trace w))
                    <= lastFetchTimeMS w)%Z
                /\ (lastFetchTimeMS w = 0%Z
                    \/ exists k,
                         k < ticks w /\ lastFetchTimeMS w = readings k))).
    2:{ split; [reflexivity|]. split; [simpl; lia | left; reflexivity]. }
    intros e w w' Ht (Hclock & Hrate & Hstamp).
    destruct Ht as [target origin w Hne | origin w Hs | origin w Hs | k u w].
    - unfold not_found_world. cbn [clock trace lastFetchTimeMS ticks].
      rewrite fetches_snoc. simpl. rewrite Nat.add_0_r.
      split; [exact Hclock|]. split; [exact Hrate | exact Hstamp].
    - rewrite fetches_refetch. unfold refetch_world.
      cbn [clock lastFetchTimeMS ticks].
      unfold stale in Hs.
      change (refetchDelaySeconds * millis)%Z with 30000%Z in Hs.
      apply Z.gtb_gt in Hs. rewrite Hclock in *.
      assert (readings (ticks w) <= readings (S (ticks w)))%Z
        by (apply Hmono; lia).
      split; [reflexivity|]. split; [lia|].
      right. exists (S (ticks w)). split; [lia | reflexivity].
    - unfold cached_world. cbn [clock trace lastFetchTimeMS ticks].
      rewrite !fetches_snoc. simpl. rewrite !Nat.add_0_r.
      split; [exact Hclock|]. split; [exact Hrate|].
      destruct Hstamp as [Hz|(j & Hj & Hr)]; [left; exact Hz|].
      right. exists j. split; [lia | exact Hr].
    - unfold after_upstream.
      destruct (nth_error (inflight w) k) as [cb|];
        [|split; [exact Hclock | split; [exact Hrate | exact Hstamp]]].
      destruct (outcome u) as [stations|err];
        cbn [clock trace lastFetchTimeMS ticks];
        rewrite fetches_snoc; simpl; rewrite Nat.add_0_r;
        (split; [exact Hclock | split; [exact Hrate | exact Hstamp]]). }
  intros w. exact (proj2 H).
Qed.

(** ** The cache over a run *)

Lemma filled_cache_transition (e : event) (w w' : world) :
  transition e w w' ->
  cachedStations w <> VNull -> cachedStations w' <> VNull.
Proof.
  intros Ht Hw.
  destruct Ht as [target origin w Hne | origin w Hs | origin w Hs | k u w];
    try exact Hw.
  unfold after_upstream.
  destruct (nth_error (inflight w) k) as [cb|]; [|exact Hw].
  destruct (outcome u) as [stations|err] eqn:Hout; [|exact Hw].
  cbn [cachedStations].
  destruct (outcome_collection u stations Hout) as [features ->].
  discriminate.
Qed.

(** X4: in every run the cache holds [null] or a FeatureCollection that
    [transformFeed] returned on some feed; it is written only by a fetch
    that succeeds, and once it holds a FeatureCollection it never holds
    [null] again, whichever fetches fail afterwards. *)
Theorem cache_is_filled_for_good (readings : nat -> Z) (evs : list event) :
  let w := run evs (initial readings) in
  (cachedStations w = VNull
   \/ exists raw features,
        transformFeed raw = Normal (cachedStations w)
        /\ cachedStations w = FeatureCollection features)
  /\ (forall later,
        cachedStations w <> VNull ->
        cachedStations (run later w) <> VNull)
  /\ (forall e,
        cachedStations (exec (step e) w) <> cachedStations w ->
        exists k parsed raw,
          e = Upstream k (EndOfBody parsed)
          /\ parsed = Normal raw
          /\ transformFeed raw = Normal (cachedStations (exec (step e) w))).
Proof.
  intros w. split; [|split].
  - assert (Hwell : serves_well w).
    { apply (run_invariant serves_well).
      - intros e v v' Ht Hv. exact (serves_well_transition e v v' Ht Hv).
      - apply serves_well_initial. }
    exact (proj1 Hwell).
  - intros later Hfilled.
    apply (run_invariant (fun v => cachedStations v <> VNull)
             (fun e v v' Ht Hv => filled_cache_transition e v v' Ht Hv)
             later w Hfilled).
  - intros e Hchange.
    pose proof (step_transition e w) as Ht.
    set (w1 := exec (step e) w) in *. clearbody w1.
    destruct Ht as [target origin w0 Hne | origin w0 Hs | origin w0 Hs
                   | k u w0];
      try (exfalso; apply Hchange; reflexivity).
    unfold after_upstream in *.
    destruct (nth_error (inflight w0) k) as [cb|];
      [|exfalso; apply Hchange; reflexivity].
    destruct (outcome u) as [stations|err] eqn:Hout;
      [|exfalso; apply Hchange; reflexivity].
    cbn [cachedStations] in *.
    destruct u as [|[raw|err]]; cbn [outcome cbind] in Hout;
      try discriminate.
    exists k, (Normal raw), raw. repeat split. exact Hout.
Qed.

(** ** Where the server fetches from *)

(** X5: the server only ever fetches from the configured feed: every
    upstream request of every run goes to [stationsFeedUrl], whatever the
    targets and headers of the requests that came in. *)
Theorem fetches_go_to_the_feed (readings : nat -> Z) (evs : list event)
    (feedUrl : string) :
  In (HttpsGet feedUrl) (trace (run evs (initial readings))) ->
  feedUrl = stationsFeedUrl.
Proof.
  revert feedUrl.
  apply (run_invariant
           (fun w => forall feedUrl,
              In (HttpsGet feedUrl) (trace w) -> feedUrl = stationsFeedUrl));
    [|intros feedUrl []].
  intros e w w' Ht Hw feedUrl Hin.
  destruct Ht as [target origin w Hne | origin w Hs | origin w Hs | k u w].
  - unfold not_found_world in Hin. cbn [trace] in Hin.
    apply in_app_or in Hin. destruct Hin as [Hin|[Heq|[]]];
      [apply Hw; exact Hin | discriminate].
  - unfold refetch_world in Hin. cbn [trace] in Hin.
    apply in_app_or in Hin. destruct Hin as [Hin|[Heq|[]]].
    + apply in_app_or in Hin. destruct Hin as [Hin|[Heq|[]]];
        [apply Hw; exact Hin | discriminate].
    + injection Heq as <-. reflexivity.
  - unfold cached_world in Hin. cbn [trace] in Hin.
    apply in_app_or in Hin. destruct Hin as [Hin|[Heq|[]]];
      [|discriminate].
    apply in_app_or in Hin. destruct Hin as [Hin|[Heq|[]]];
      [apply Hw; exact Hin | discriminate].
  - unfold after_upstream in Hin.
    destruct (nth_error (inflight w) k) as [cb|]; [|apply Hw; exact Hin].
    destruct (outcome u) as [stations|err]; cbn [trace] in Hin;
      apply in_app_or in Hin; destruct Hin as [Hin|[Heq|[]]];
      solve [apply Hw; exact Hin | discriminate].
Qed.

(** ** A refresh and the requests after it *)

(** X6: when a fetch succeeds, the request that started it is answered
    with the FeatureCollection just built, the cache takes that value, and
    every request for [/] that follows while the clock reads at most
    [lastFetchTimeMS + 30000] is answered at once with the very same body
    and starts no fetch. *)
Theorem refresh_then_serve (w : world) (k : nat) (cb : callback)
    (u : upstream) (stations : value) (origins : list (option string)) :
  nth_error (inflight w) k = Some cb ->
  outcome u = Normal stations ->
  let w1 := exec (step (Upstream k u)) w in
  let w2 := run (burst origins) w1 in
  (forall n, ticks w <= n < ticks w2 ->
             (clock w n <= lastFetchTimeMS w + 30000)%Z) ->
  trace w2 =
    trace w
      ++ [ResponseEnd (callback_request cb)
            (json_response (callback_request cb) (callback_response cb))
            (json_body stations)]
      ++ fresh_responses (accepted w) stations origins
  /\ cachedStations w2 = stations
  /\ fetches (trace w2) = fetches (trace w).
Proof.
  intros Hk Hout w1 w2 Hfresh.
  assert (Hw1 : w1 =
    {| lastFetchTimeMS := lastFetchTimeMS w;
       cachedStations := stations;
       inflight := remove_nth k (inflight w);
       clock := clock w;
       ticks := ticks w;
       accepted := accepted w;
       trace :=
         trace w ++
           [ResponseEnd (callback_request cb)
              (json_response (callback_request cb) (callback_response cb))
              (json_body stations)] |}).
  { unfold w1. rewrite step_upstream. unfold after_upstream.
    rewrite Hk, Hout. reflexivity. }
  assert (Htrace : trace w2 =
            trace w1 ++ fresh_responses (accepted w1) (cachedStations w1)
                          origins).
  { apply fresh_burst. intros n Hn. fold w2 in Hn.
    replace (clock w1) with (clock w) by (rewrite Hw1; reflexivity).
    replace (lastFetchTimeMS w1) with (lastFetchTimeMS w)
      by (rewrite Hw1; reflexivity).
    apply Hfresh.
    replace (ticks w1) with (ticks w) in Hn by (rewrite Hw1; reflexivity).
    exact Hn. }
  assert (Hnone : forall n c l, fetches (fresh_responses n c l) = 0).
  { intros n c l. revert n.
    induction l as [|x l IHl]; intros n; [reflexivity|].
    cbn [fresh_responses]. unfold fetches in *. simpl. apply IHl. }
  split; [|split].
  - rewrite Htrace, Hw1. cbn [trace accepted cachedStations].
    rewrite <- app_assoc. reflexivity.
  - unfold w2. rewrite burst_keeps_cache, Hw1. reflexivity.
  - rewrite Htrace, fetches_app, Hnone, Hw1. cbn [trace].
    rewrite fetches_snoc. simpl. lia.
Qed.

(** ** Reading the stations back *)

Lemma properties_of_feature_of (stations : list value) :
  map_completion (fun feature => get feature "properties")
    (map feature_of stations) = Normal stations.
Proof.
  induction stations as [|st stations IH]; [reflexivity|].
  cbn [map map_completion]. rewrite IH. reflexivity.
Qed.

(** X7: nothing of the station list is lost or reordered.  From a
    FeatureCollection that [transformFeed] returned, the [properties] of
    its Features, in order, are the stations of the feed; so two feeds
    with the same result have the same [stationBeanList]. *)
Theorem stations_can_be_read_back (raw collection : value) :
  transformFeed raw = Normal collection ->
  (exists props stations,
     raw = VObject props
     /\ own_property "stationBeanList" props = Some (VArray stations)
     /\ properties_of_features collection = Normal stations)
  /\ (forall raw',
        transformFeed raw' = Normal collection ->
        get raw' "stationBeanList" = get raw "stationBeanList").
Proof.
  assert (Hback : forall r c,
    transformFeed r = Normal c ->
    exists props stations,
      r = VObject props
      /\ own_property "stationBeanList" props = Some (VArray stations)
      /\ properties_of_features c = Normal stations).
  { intros r c H. rewrite transformFeed_shape in H.
    destruct r as [| | b | n | s | elems | props]; try discriminate.
    destruct (own_property "stationBeanList" props) as [list|] eqn:Hl;
      try discriminate.
    destruct list as [| | b | n | s | sts | props']; try discriminate.
    destruct (forallb (fun s => negb (nullish s)) sts); try discriminate.
    injection H as <-. exists props, sts.
    split; [reflexivity|]. split; [exact Hl|].
    unfold properties_of_features, FeatureCollection. cbn [get cbind].
    change (own_property "features"
              [("type", VString "FeatureCollection");
               ("features", VArray (map feature_of sts))])
      with (Some (VArray (map feature_of sts))).
    cbv iota. apply properties_of_feature_of. }
  intros H. split; [exact (Hback raw collection H)|].
  intros raw' H'.
  destruct (Hback raw collection H) as (props & sts & -> & Hl & Hp).
  destruct (Hback raw' collection H') as (props' & sts' & -> & Hl' & Hp').
  cbn [get]. rewrite Hl, Hl'. congruence.
Qed.

(** ** Sharing in the store *)

Lemma shares_extends (h h' : store) (station r : ref_value) :
  extends h h' -> shares h station r -> shares h' station r.
Proof.
  intros Hext (a & fields & -> & Hcell & Hown).
  exists a, fields. split; [reflexivity|].
  split; [eapply extends_nth; eassumption | exact Hown].
Qed.

Lemma shares_get_in (h : store) (station r : ref_value) :
  shares h station r -> get_in h r "properties" = Normal station.
Proof.
  intros (a & fields & -> & Hcell & Hown). cbn [get_in].
  rewrite Hcell, Hown. reflexivity.
Qed.

Lemma get_in_not_nullish (h : store) (v : ref_value) (key : string) :
  nullish_ref v = false -> exists x, get_in h v key = Normal x.
Proof.
  destruct v as [| | b | n | s | a]; cbn [nullish_ref get_in];
    intros H; try discriminate; try (eexists; reflexivity).
  destruct (nth_error h a) as [[elems|props]|]; eexists; reflexivity.
Qed.

Lemma transformStation_in_shares (station : ref_value) (h : store) :
  nullish_ref station = false ->
  exists r cells,
    transformStation_in station h = (Normal r, h ++ cells)
    /\ List.length cells = 3
    /\ shares (h ++ cells) station r.
Proof.
  intros Hn. unfold transformStation_in.
  destruct (get_in_not_nullish h station "longitude" Hn) as [lon ->].
  destruct (get_in_not_nullish h station "latitude" Hn) as [lat ->].
  unfold allocate.
  set (c1 := ArrayCell [lon; lat]).
  set (c2 := ObjectCell [ ("type", RString "Point");
                          ("coordinates", RRef (List.length h)) ]).
  set (c3 := ObjectCell [ ("type", RString "Feature");
                          ("geometry", RRef (List.length (h ++ [c1])));
                          ("properties", station) ]).
  exists (RRef (List.length ((h ++ [c1]) ++ [c2]))), [c1; c2; c3].
  split.
  { f_equal. rewrite <- !app_assoc. reflexivity. }
  split; [reflexivity|].
  exists (List.length ((h ++ [c1]) ++ [c2])),
         [ ("type", RString "Feature");
           ("geometry", RRef (List.length (h ++ [c1])));
           ("properties", station) ].
  split; [reflexivity|]. split; [|reflexivity].
  change (h ++ [c1; c2; c3]) with (h ++ [c1] ++ [c2] ++ [c3]).
  rewrite !app_assoc. apply nth_allocated.
Qed.

Lemma map_in_shares (stations : list ref_value) :
  forall h : store,
  Forall (fun station => nullish_ref station = false) stations ->
  exists results cells,
    map_in transformStation_in stations h = (Normal results, h ++ cells)
    /\ List.length cells = 3 * List.length stations
    /\ Forall2 (shares (h ++ cells)) stations results.
Proof.
  induction stations as [|st stations IH]; intros h Hall.
  - exists [], []. cbn [map_in]. rewrite app_nil_r.
    split; [reflexivity|]. split; [reflexivity | constructor].
  - inversion Hall as [|x l Hst Hrest]; subst.
    destruct (transformStation_in_shares st h Hst)
      as (r & cells1 & Hfirst & Hlen1 & Hshare1).
    destruct (IH (h ++ cells1) Hrest)
      as (results & cells2 & Hothers & Hlen2 & Hshare2).
    exists (r :: results), (cells1 ++ cells2).
    cbn [map_in]. rewrite Hfirst, Hothers. rewrite <- app_assoc in *.
    split; [reflexivity|]. split.
    + rewrite length_app. cbn [List.length]. lia.
    + constructor; [|exact Hshare2].
      apply (shares_extends (h ++ cells1)); [|exact Hshare1].
      exists cells2. rewrite app_assoc. reflexivity.
Qed.

(** X8: the Features share the stations they were made from.  On a feed
    whose [stationBeanList] is an array of stations that are not [null],
    [transformFeed] makes three new objects per station and two more, and
    the [properties] of the i-th Feature is the i-th station itself, not a
    copy of it. *)
Theorem features_share_their_stations (h : store) (raw : ref_value)
    (address : nat) (stations : list ref_value) :
  get_in h raw "stationBeanList" = Normal (RRef address) ->
  nth_error h address = Some (ArrayCell stations) ->
  Forall (fun station => nullish_ref station = false) stations ->
  exists a features results h',
    transformFeed_in raw h = (Normal (RRef a), h')
    /\ List.length h' = List.length h + 3 * List.length stations + 2
    /\ get_in h' (RRef a) "features" = Normal (RRef features)
    /\ nth_error h' features = Some (ArrayCell results)
    /\ Forall2 (fun station r => get_in h' r "properties" = Normal station)
         stations results.
Proof.
  intros Hget Hcell Hall.
  destruct (map_in_shares stations h Hall)
    as (results & cells & Hmap & Hlen & Hshare).
  unfold transformFeed_in. rewrite Hget, Hcell, Hmap. unfold allocate.
  set (h1 := h ++ cells) in *.
  set (c2 := ArrayCell results).
  set (c3 := ObjectCell [ ("type", RString "FeatureCollection");
                          ("features", RRef (List.length h1)) ]).
  exists (List.length (h1 ++ [c2])), (List.length h1), results,
         ((h1 ++ [c2]) ++ [c3]).
  assert (E : extends h1 ((h1 ++ [c2]) ++ [c3])).
  { exists [c2; c3]. rewrite <- app_assoc. reflexivity. }
  split; [reflexivity|]. split.
  { unfold h1. rewrite !length_app, Hlen. simpl. lia. }
  split.
  { cbn [get_in]. rewrite nth_allocated. reflexivity. }
  split.
  { apply (extends_nth (h1 ++ [c2])); [exists [c3]; reflexivity|].
    apply nth_allocated. }
  apply (Forall2_impl
           (fun station r =>
              get_in ((h1 ++ [c2]) ++ [c3]) r "properties" = Normal station)
           (fun station r Hs =>
              shares_get_in _ station r
                (shares_extends h1 _ station r E Hs))).
  exact Hshare.
Qed.

End Runtime.

Arguments VUndefined {number}.
Arguments VNull {number}.
Arguments VBool {number} b.
Arguments VNumber {number} n.
Arguments VString {number} s.
Arguments VArray {number} elems.
Arguments VObject {number} props.
Arguments RUndefined {number}.
Arguments RNull {number}.
Arguments RBool {number} b.
Arguments RNumber {number} n.
Arguments RString {number} s.
Arguments RRef {number} address.
Arguments ArrayCell {number} elems.
Arguments ObjectCell {number} props.
Arguments get {number} v key.
Arguments nullish {number} v.
Arguments Feature {number} longitude latitude properties.
Arguments FeatureCollection {number} features.
Arguments transformStation {number} station.
Arguments transformFeed {number} stationFeedData.
Arguments transformFeed_in {number} stationFeedData h.
Arguments contents {number} fuel h v.
Arguments extends {number} h h'.
Arguments JSON_stringify {number} Number_isFinite Number_toString v space.
Arguments Incoming {number} target origin.
Arguments Upstream {number} k u.
Arguments ConnectionError {number}.
Arguments EndOfBody {number} parsed.
Arguments outcome {number} u.
Arguments lastFetchTimeMS {number} w.
Arguments cachedStations {number} w.
Arguments inflight {number} w.
Arguments clock {number} w n.
Arguments ticks {number} w.
Arguments accepted {number} w.
Arguments trace {number} w.
Arguments initial {number} readings.
Arguments exec {number A} m w.
Arguments emitted {number A} m w.
Arguments starts_fetch {number A} m w.
Arguments stale {number} w.
Arguments step {number} Number_isFinite Number_toString e.
Arguments run {number} Number_isFinite Number_toString evs w.
Arguments burst {number} origins.
Arguments alive {number} Number_isFinite Number_toString evs w.
Arguments properties_of_features {number} collection.
Arguments nullish_ref {number} v.
Arguments get_in {number} h v key.

(** ** Runs on concrete data

    Numbers are given here by the decimal text the runtime prints them
    with. *)

Definition literal : Type := string.

Definition literal_isFinite (n : literal) : bool :=
  negb (String.eqb n "Infinity" || String.eqb n "-Infinity"
        || String.eqb n "NaN").

Definition literal_toString (n : literal) : string := n.

Definition demo_step : event literal -> M literal (completion unit) :=
  step literal_isFinite literal_toString.

Definition demo_run : list (event literal) -> world literal -> world literal :=
  run literal_isFinite literal_toString.

(** A clock that advances by a millisecond with every reading, and one
    that stands still. *)
Definition ticking (n : nat) : Z := 40000 + Z.of_nat n.
Definition still (n : nat) : Z := 40000.

(** The feed of the specification's example scenario. *)
Definition example_station : value literal :=
  VObject [ ("id", VNumber "1");
            ("longitude", VNumber "-122.4");
            ("latitude", VNumber "37.8") ].

Definition example_feed : value literal :=
  VObject [ ("stationBeanList", VArray [example_station]) ].

(** A feed whose only station has neither [longitude] nor [latitude]. *)
Definition bare_station : value literal := VObject [ ("id", VNumber "1") ].

Definition bare_feed : value literal :=
  VObject [ ("stationBeanList", VArray [bare_station]) ].

(** The example feed as cells of a store; the feed is at address 2. *)
Definition example_store : store literal :=
  [ ObjectCell [ ("id", RNumber "1");
                 ("longitude", RNumber "-122.4");
                 ("latitude", RNumber "37.8") ];
    ArrayCell [RRef 0];
    ObjectCell [ ("stationBeanList", RRef 1) ] ].

(** The text of the example feed's FeatureCollection, line by line. *)
Definition quoted (s : string) : string :=
  (double_quote ++ s ++ double_quote)%string.

Definition example_body : string :=
  String.concat line_feed
    [ "{";
      "   " ++ quoted "type" ++ ": " ++ quoted "FeatureCollection" ++ ",";
      "   " ++ quoted "features" ++ ": [";
      "      {";
      "         " ++ quoted "type" ++ ": " ++ quoted "Feature" ++ ",";
      "         " ++ quoted "geometry" ++ ": {";
      "            " ++ quoted "type" ++ ": " ++ quoted "Point" ++ ",";
      "            " ++ quoted "coordinates" ++ ": [";
      "               -122.4,";
      "               37.8";
      "            ]";
      "         },";
      "         " ++ quoted "properties" ++ ": {";
      "            " ++ quoted "id" ++ ": 1,";
      "            " ++ quoted "longitude" ++ ": -122.4,";
      "            " ++ quoted "latitude" ++ ": 37.8";
      "         }";
      "      }";
      "   ]";
      "}" ]%string.

Example stringify_indents_by_three :
  JSON_stringify literal_isFinite literal_toString
    (VArray [VNumber "1"; VArray []; VNull;
             VObject [ ("id", VNumber "Infinity"); ("gone", VUndefined) ]]) 3
  = Some ("[" ++ line_feed
          ++ "   1," ++ line_feed
          ++ "   []," ++ line_feed
          ++ "   null," ++ line_feed
          ++ "   {" ++ line_feed
          ++ "      " ++ double_quote ++ "id" ++ double_quote ++ ": null"
          ++ line_feed
          ++ "   }" ++ line_feed
          ++ "]")%string.
Proof. vm_compute. reflexivity. Qed.

Example example_feed_is_cached :
  let w := demo_run [Incoming "/" None;
                     Upstream 0 (EndOfBody (Normal example_feed))]
             (initial ticking) in
  cachedStations w
    = FeatureCollection
        [Feature (VNumber "-122.4") (VNumber "37.8") example_station]
  /\ fetches (trace w) = 1
  /\ answered 0 (trace w).
Proof.
  split; [vm_compute; reflexivity|]. split; [vm_compute; reflexivity|].
  eexists _, _, _. split.
  - cbv. right. right. left. reflexivity.
  - reflexivity.
Qed.

(** *** C1 *)

Lemma stamp_is_a_second_reading :
  let w := initial (number := literal) ticking in
  let w' := exec (demo_step (Incoming "/" None)) w in
  stale w = true
  /\ clock w (ticks w) = 40000%Z
  /\ lastFetchTimeMS w' = 40001%Z
  /\ lastFetchTimeMS w' <> clock w (ticks w).
Proof.
  repeat split; try (vm_compute; reflexivity).
  vm_compute. discriminate.
Qed.

Lemma stamp_is_set_at_fetch_start_witness :
  let w := initial (number := literal) ticking in
  let w' := exec (demo_step (Incoming "/" None)) w in
  stale w = true /\ lastFetchTimeMS w' = clock w 1.
Proof.
  split; [reflexivity|].
  refine (proj1 (stamp_is_set_at_fetch_start literal literal_isFinite
                   literal_toString None (initial ticking) _)).
  reflexivity.
Defined.

(** *** C3 *)

Lemma burst_starts_at_most_one_fetch_witness :
  let w := initial (number := literal) still in
  let w' := demo_run (burst [None; Some "https://example.org"; None]) w in
  (forall n, ticks w <= n < ticks w' -> (40000 <= clock w n <= 40000 + 1)%Z)
  /\ stale w = true
  /\ fetches (trace w') <= fetches (trace w) + 1
  /\ fetches (trace w') = fetches (trace w) + 1.
Proof.
  assert (Hwindow : forall n : nat,
            (40000 <= still n <= 40000 + 1)%Z)
    by (intros n; unfold still; lia).
  split; [intros n _; apply Hwindow|]. split; [reflexivity|].
  destruct (burst_starts_at_most_one_fetch literal literal_isFinite
              literal_toString
              [None; Some "https://example.org"; None]
              (initial still) 40000%Z (fun n _ => Hwindow n))
    as (Hmost & _ & Hexact).
  split; [exact Hmost|].
  destruct (Hexact eq_refl None [Some "https://example.org"; None] eq_refl)
    as [Hone _].
  exact Hone.
Defined.

(** *** C4 *)

Lemma transformFeed_maps_stations_in_order_witness :
  exists features,
    transformFeed example_feed = Normal (FeatureCollection features)
    /\ List.length features = 1
    /\ forall i station,
         nth_error [example_station] i = Some station ->
         exists longitude latitude,
           get station "longitude" = Normal longitude
           /\ get station "latitude" = Normal latitude
           /\ nth_error features i
                = Some (Feature longitude latitude station).
Proof.
  apply (transformFeed_maps_stations_in_order literal
           [ ("stationBeanList", VArray [example_station]) ]
           [example_station]).
  - reflexivity.
  - repeat constructor.
Defined.

(** *** C5 *)

(** A station without [longitude] and [latitude] does not make
    [transformFeed] fail: its Feature has [undefined] coordinates. *)
Lemma missing_coordinates_do_not_fail :
  own_property "longitude" [ ("id", VNumber (number := literal) "1") ] = None
  /\ own_property "latitude" [ ("id", VNumber (number := literal) "1") ]
       = None
  /\ transformFeed bare_feed
       = Normal (FeatureCollection
                   [Feature VUndefined VUndefined bare_station])
  /\ (forall e, transformFeed bare_feed <> Throw e).
Proof.
  repeat split; try reflexivity.
  intros e. vm_compute. discriminate.
Qed.

(** *** C6 *)



(** *** C7 *)

Lemma unknown_route_is_not_found_witness :
  let w := initial (number := literal) ticking in
  let request :=
    {| conn := 0; url := "/other"; headers_origin := None |} in
  "/other" <> "/"
  /\ emitted (demo_step (Incoming "/other" None)) w =
       [ResponseEnd request {| statusCode := 404; headers := [] |}
          "NOT FOUND"].
Proof.
  split; [discriminate|].
  refine (proj1 (unknown_route_is_not_found literal literal_isFinite
                   literal_toString "/other" None (initial ticking) _)).
  discriminate.
Defined.

(** *** C8 *)

(** An [Origin] header that is present and empty is not echoed: the
    response carries [*]. *)
Lemma empty_origin_is_not_echoed :
  let request := {| conn := 1; url := "/"; headers_origin := Some "" |} in
  let response :=
    {| statusCode := 200;
       headers := [ ("Content-Type", "application/json");
                    ("Access-Control-Allow-Origin", "*") ] |} in
  let w := demo_run [Incoming "/" None; Incoming "/" (Some "")]
             (initial ticking) in
  In (ResponseEnd request response "null") (trace w)
  /\ headers_origin request = Some ""
  /\ getHeader "Access-Control-Allow-Origin" response = Some "*"
  /\ getHeader "Access-Control-Allow-Origin" response
       <> headers_origin request.
Proof.
  intros request response w.
  split; [vm_compute; right; right; right; left; reflexivity|].
  split; [reflexivity|]. split; [reflexivity|].
  vm_compute. discriminate.
Qed.

Lemma root_response_is_json_witness :
  let request :=
    {| conn := 0; url := "/";
       headers_origin := Some "https://example.org" |} in
  let response :=
    {| statusCode := 200;
       headers := [ ("Content-Type", "application/json");
                    ("Access-Control-Allow-Origin", "https://example.org") ]
    |} in
  let w := demo_run [Incoming "/" (Some "https://example.org");
                     Upstream 0 (EndOfBody (Normal example_feed))]
             (initial ticking) in
  In (ResponseEnd request response example_body) (trace w)
  /\ example_body <> "null"
  /\ JSON_stringify literal_isFinite literal_toString (cachedStations w) 3
       = Some example_body
  /\ getHeader "Access-Control-Allow-Origin" response
       = Some "https://example.org".
Proof.
  intros request response w.
  split; [vm_compute; right; right; left; reflexivity|].
  split; [vm_compute; discriminate|].
  split; [vm_compute; reflexivity|].
  pose proof (root_response_is_json literal literal_isFinite literal_toString
                ticking
                [Incoming "/" (Some "https://example.org");
                 Upstream 0 (EndOfBody (Normal example_feed))]
                request response example_body) as H.
  match type of H with
  | ?P -> _ =>
      assert (Hin : P) by (vm_compute; right; right; left; reflexivity)
  end.
  apply (proj1 (proj2 (proj2 (H Hin eq_refl)))); [reflexivity | discriminate].
Defined.

(** *** C9 *)

Lemma transformFeed_is_pure_witness :
  let first := transformFeed_in (RRef 2) example_store in
  let second := transformFeed_in (RRef 2) (snd first) in
  contents 3 example_store (RRef 2) = Some example_feed
  /\ extends example_store (snd first)
  /\ extends (snd first) (snd second)
  /\ contents 3 (snd second) (RRef 2) = Some example_feed.
Proof.
  intros first second.
  split; [reflexivity|].
  destruct (transformFeed_is_pure literal 3 example_store (RRef 2)
              example_feed eq_refl) as (H1 & H2 & H3 & _).
  split; [exact H1|]. split; [exact H2 | exact H3].
Defined.

(** *** C10 *)

Lemma empty_cache_is_served_as_null_witness :
  let w := exec (demo_step (Incoming "/" None))
             (initial (number := literal) still) in
  cachedStations w = VNull
  /\ stale w = false
  /\ exists response,
       emitted (demo_step (Incoming "/" (Some "https://example.org"))) w =
         [ConsoleLog no_need_line;
          ResponseEnd
            {| conn := 1; url := "/";
               headers_origin := Some "https://example.org" |}
            response "null"]
       /\ statusCode response = 200%Z
       /\ getHeader "Content-Type" response = Some "application/json"
       /\ starts_fetch
            (demo_step (Incoming "/" (Some "https://example.org"))) w
          = false.
Proof.
  split; [reflexivity|]. split; [reflexivity|].
  apply (empty_cache_is_served_as_null literal literal_isFinite
           literal_toString (Some "https://example.org")
           (exec (demo_step (Incoming "/" None)) (initial still)));
    reflexivity.
Defined.

(** *** X3 *)

Lemma fetches_are_rate_limited_witness :
  let w := demo_run [Incoming "/" None; Incoming "/" None;
                     Incoming "/other" None; Incoming "/" None]
             (initial ticking) in
  (forall i j, i <= j -> (ticking i <= ticking j)%Z)
  /\ (30001 * Z.of_nat (fetches (trace w)) <= lastFetchTimeMS w)%Z.
Proof.
  assert (Hmono : forall i j, i <= j -> (ticking i <= ticking j)%Z)
    by (intros i j Hij; unfold ticking; lia).
  split; [exact Hmono|].
  exact (proj1 (fetches_are_rate_limited literal literal_isFinite
                  literal_toString ticking
                  [Incoming "/" None; Incoming "/" None;
                   Incoming "/other" None; Incoming "/" None]
                  Hmono)).
Defined.

(** *** X5 *)

Lemma fetches_go_to_the_feed_witness :
  let feedUrl :=
    "https://feeds.bayareabikeshare.com/stations/stations.json" in
  let w := demo_run [Incoming "/" (Some "https://example.org")]
             (initial ticking) in
  In (HttpsGet feedUrl) (trace w) /\ feedUrl = stationsFeedUrl.
Proof.
  intros feedUrl w.
  assert (Hin : In (HttpsGet feedUrl) (trace w))
    by (vm_compute; right; left; reflexivity).
  split; [exact Hin|].
  exact (fetches_go_to_the_feed literal literal_isFinite literal_toString
           ticking [Incoming "/" (Some "https://example.org")] feedUrl Hin).
Defined.

(** *** X6 *)

Lemma refresh_then_serve_witness :
  let request := {| conn := 0; url := "/"; headers_origin := None |} in
  let stations :=
    FeatureCollection
      [Feature (VNumber "-122.4") (VNumber "37.8") example_station] in
  let u := EndOfBody (Normal example_feed) in
  let w := demo_run [Incoming "/" None] (initial still) in
  let w1 := exec (demo_step (Upstream 0 u)) w in
  let w2 := demo_run (burst [None; Some "https://example.org"]) w1 in
  nth_error (inflight w) 0 = Some (RespondWithStations request new_response)
  /\ outcome u = Normal stations
  /\ cachedStations w2 = stations
  /\ fetches (trace w2) = fetches (trace w).
Proof.
  intros request stations u w w1 w2.
  split; [reflexivity|]. split; [reflexivity|].
  destruct (refresh_then_serve literal literal_isFinite literal_toString
              w 0 (RespondWithStations request new_response) u stations
              [None; Some "https://example.org"] eq_refl eq_refl)
    as (_ & Hcache & Hfetches).
  - intros n _. change (clock w n) with 40000%Z.
    change (lastFetchTimeMS w) with 40000%Z. lia.
  - split; [exact Hcache | exact Hfetches].
Defined.

(** *** X7 *)

Lemma stations_can_be_read_back_witness :
  let collection :=
    FeatureCollection
      [Feature (VNumber "-122.4") (VNumber "37.8") example_station] in
  transformFeed example_feed = Normal collection
  /\ exists props stations,
       example_feed = VObject props
       /\ own_property "stationBeanList" props = Some (VArray stations)
       /\ properties_of_features collection = Normal stations.
Proof.
  split; [reflexivity|].
  exact (proj1 (stations_can_be_read_back literal example_feed _ eq_refl)).
Defined.

(** *** X8 *)

Lemma features_share_their_stations_witness :
  get_in example_store (RRef 2) "stationBeanList" = Normal (RRef 1)
  /\ nth_error example_store 1 = Some (ArrayCell [RRef 0])
  /\ exists a features results h',
       transformFeed_in (RRef 2) example_store = (Normal (RRef a), h')
       /\ List.length h' = List.length example_store + 3 * 1 + 2
       /\ get_in h' (RRef a) "features" = Normal (RRef features)
       /\ nth_error h' features = Some (ArrayCell results)
       /\ Forall2
            (fun station r => get_in h' r "properties" = Normal station)
            [RRef 0] results.
Proof.
  split; [reflexivity|]. split; [reflexivity|].
  apply (features_share_their_stations literal example_store (RRef 2) 1
           [RRef 0]).
  - reflexivity.
  - reflexivity.
  - repeat constructor.
Defined.
